(** * A shallow embedding of the sbrk-based allocator of [main.c]

    The file models [get_free_block], [malloc], [free], [calloc] and
    [realloc] over an explicit allocator state: the block headers written
    in the heap (keyed by their address), the payload bytes, the two
    globals [head] and [tail], and the program break.  Integers of type
    [size_t] and pointers are [Z] with their wrap-around written out.
    The mutex is not modelled: every operation runs alone. *)

From Stdlib Require Import ZArith List Lia Bool.
From stdpp Require Import base option list gmap.

Local Open Scope Z_scope.

(** ** The platform: sizes of the scalar types

    [sizeof(header_t)] is not a number written in the source: it follows
    from the declaration of [union header] and from the data model of the
    platform.  The two data models of the unix systems that offer [sbrk]
    are covered. *)

Inductive data_model := ILP32 | LP64.

Definition sizeof_size_t (dm : data_model) : Z :=
  match dm with ILP32 => 4 | LP64 => 8 end.

Definition sizeof_unsigned (dm : data_model) : Z := 4.

Definition sizeof_pointer (dm : data_model) : Z :=
  match dm with ILP32 => 4 | LP64 => 8 end.

(** A member of a struct or union: its size and its alignment. *)
Record member := { m_size : Z; m_align : Z }.

Definition align_up (n a : Z) : Z := ((n + a - 1) / a) * a.

Definition max_align (ms : list member) : Z :=
  fold_right (fun m acc => Z.max (m_align m) acc) 1 ms.

(** Members of a struct are laid out in order, each at the next offset
    that is a multiple of its alignment; the struct is padded to a
    multiple of its largest alignment. *)
Definition struct_layout (ms : list member) : member :=
  let last := fold_left (fun off m => align_up off (m_align m) + m_size m) ms 0 in
  {| m_size := align_up last (max_align ms); m_align := max_align ms |}.

(** Members of a union overlap; the union is as large as its largest
    member, padded to a multiple of its largest alignment. *)
Definition union_layout (ms : list member) : member :=
  let big := fold_right (fun m acc => Z.max (m_size m) acc) 0 ms in
  {| m_size := align_up big (max_align ms); m_align := max_align ms |}.

Definition scalar (n : Z) : member := {| m_size := n; m_align := n |}.

(** [typedef char ALIGN[16];] *)
Definition ALIGN : member := {| m_size := 16; m_align := 1 |}.

(** [struct { size_t size; unsigned is_free; union header *next; } s;] *)
Definition header_s (dm : data_model) : member :=
  struct_layout [scalar (sizeof_size_t dm); scalar (sizeof_unsigned dm);
                 scalar (sizeof_pointer dm)].

(** [union header { struct {...} s; ALIGN stub; };] *)
Definition union_header (dm : data_model) : member :=
  union_layout [header_s dm; ALIGN].

(** [sizeof(header_t)] *)
Definition sizeof_header (dm : data_model) : Z := m_size (union_header dm).
Arguments sizeof_header : simpl never.

(** ** Machine integers *)

Definition bits (dm : data_model) : Z := 8 * sizeof_size_t dm.
Definition modulus (dm : data_model) : Z := 2 ^ bits dm.
Definition half_modulus (dm : data_model) : Z := 2 ^ (bits dm - 1).
Arguments modulus : simpl never.
Arguments half_modulus : simpl never.

(** Arithmetic on [size_t] and on pointers is taken modulo [2^bits]. *)
Definition wrap (dm : data_model) (z : Z) : Z := z mod modulus dm.
Arguments wrap : simpl never.

(** Conversion of a [size_t] to the [intptr_t] parameter of [sbrk]. *)
Definition signed (dm : data_model) (z : Z) : Z :=
  if z <? half_modulus dm then z else z - modulus dm.

(** [NULL] and the failure value [(void * )-1] of [sbrk]. *)
Definition NULL : Z := 0.
Definition sbrk_failed (dm : data_model) : Z := wrap dm (-1).

(** ** The allocator state *)

(** The three fields of [header_t]. *)
Record header := {
  h_size : Z;
  h_is_free : bool;
  h_next : Z
}.

Definition set_is_free (v : bool) (h : header) : header :=
  {| h_size := h_size h; h_is_free := v; h_next := h_next h |}.

Definition set_next (v : Z) (h : header) : header :=
  {| h_size := h_size h; h_is_free := h_is_free h; h_next := v |}.

(** Calls that the allocator makes, recorded most recent first.  The
    record is a ghost of the model: the code never reads it. *)
Inductive call :=
| Call_malloc (size : Z)
| Call_free (block : Z)
| Call_sbrk (increment : Z)
| Call_memset (dst c n : Z)
| Call_memcpy (dst src n : Z).

Record state := {
  hdrs : gmap Z header;  (* the headers stored in the heap, by address *)
  bytes : gmap Z Z;      (* the payload bytes, by address *)
  head : Z;
  tail : Z;
  brk : Z;               (* the program break *)
  limit : Z;             (* the largest break the system grants *)
  trace : list call
}.

Definition set_hdrs (m : gmap Z header) (s : state) : state :=
  {| hdrs := m; bytes := bytes s; head := head s; tail := tail s;
     brk := brk s; limit := limit s; trace := trace s |}.

Definition set_bytes (b : gmap Z Z) (s : state) : state :=
  {| hdrs := hdrs s; bytes := b; head := head s; tail := tail s;
     brk := brk s; limit := limit s; trace := trace s |}.

Definition set_head (v : Z) (s : state) : state :=
  {| hdrs := hdrs s; bytes := bytes s; head := v; tail := tail s;
     brk := brk s; limit := limit s; trace := trace s |}.

Definition set_tail (v : Z) (s : state) : state :=
  {| hdrs := hdrs s; bytes := bytes s; head := head s; tail := v;
     brk := brk s; limit := limit s; trace := trace s |}.

Definition set_brk (v : Z) (s : state) : state :=
  {| hdrs := hdrs s; bytes := bytes s; head := head s; tail := tail s;
     brk := v; limit := limit s; trace := trace s |}.

Definition record_call (c : call) (s : state) : state :=
  {| hdrs := hdrs s; bytes := bytes s; head := head s; tail := tail s;
     brk := brk s; limit := limit s; trace := c :: trace s |}.

(** The state of a process that has not allocated yet. *)
Definition initial (brk0 lim : Z) : state :=
  {| hdrs := ∅; bytes := ∅; head := NULL; tail := NULL;
     brk := brk0; limit := lim; trace := [] |}.

(** ** Outcomes

    An operation returns, reads a header where none was ever written or
    writes a new header that does not lie below the break (the behaviour
    of the C program is then not defined), or walks a list that never
    reaches [NULL]. *)

Inductive outcome (A : Type) :=
| Ok (a : A)
| Undefined
| Diverges.
Arguments Ok {A} a.
Arguments Undefined {A}.
Arguments Diverges {A}.

#[global] Instance outcome_ret : MRet outcome := fun A a => Ok a.

#[global] Instance outcome_bind : MBind outcome := fun A B k o =>
  match o with
  | Ok a => k a
  | Undefined => Undefined
  | Diverges => Diverges
  end.

(** Reading through a [header_t *]. *)
Definition load (m : gmap Z header) (a : Z) : outcome header :=
  match m !! a with
  | Some h => Ok h
  | None => Undefined
  end.

(** ** The system and library calls *)

(** [sbrk] is the system call the allocator rests on; the source
    describes it in its opening comments.  [sbrk(0)] gives the current
    break; a positive increment raises the break by that many bytes, a
    negative one lowers it; the call returns the prior break, or fails
    with [(void * )-1] and changes nothing.  It fails when the new break
    would leave the range the system grants, taken here to run from
    address 0 to [limit].  The start of the heap is not recorded: on a
    well-formed heap [free] lowers the break no further than the first
    header, and only a request to [malloc] of more than half the address
    space passes a negative increment that could reach below it. *)
Definition sbrk (dm : data_model) (increment : Z) (s : state) : Z * state :=
  let s := record_call (Call_sbrk increment) s in
  let new_brk := brk s + increment in
  if increment =? 0 then (brk s, s)
  else if (new_brk <? 0) || (limit s <? new_brk) then (sbrk_failed dm, s)
  else (brk s, set_brk new_brk s).

(** [memset(dst, c, n)] *)
Definition memset (dm : data_model) (dst c n : Z) (s : state) : state :=
  let s := record_call (Call_memset dst c n) s in
  set_bytes
    (fold_right (fun i b => <[wrap dm (dst + i) := c]> b) (bytes s) (seqZ 0 n)) s.

(** [memcpy(dst, src, n)]: the source bytes are those before the call. *)
Definition memcpy (dm : data_model) (dst src n : Z) (s : state) : state :=
  let s := record_call (Call_memcpy dst src n) s in
  set_bytes
    (fold_right
       (fun i b =>
          match bytes s !! wrap dm (src + i) with
          | Some v => <[wrap dm (dst + i) := v]> b
          | None => delete (wrap dm (dst + i)) b
          end)
       (bytes s) (seqZ 0 n)) s.

(** A client writing one byte of a block it owns. *)
Definition poke (a v : Z) (s : state) : state :=
  set_bytes (<[a := v]> (bytes s)) s.

(** ** The allocator *)

(** The loop of [get_free_block], started at [curr].  A walk over more
    nodes than there are headers has met one of them twice: it is on a
    cycle and the loop, which writes nothing, never ends. *)
Fixpoint get_free_block_from (fuel : nat) (m : gmap Z header) (size curr : Z)
  : outcome Z :=
  match fuel with
  | O => Diverges
  | S fuel' =>
      if curr =? NULL then Ok NULL
      else
        h ← load m curr;
        if h_is_free h && (size <=? h_size h) then Ok curr
        else get_free_block_from fuel' m size (h_next h)
  end.

Definition get_free_block (size : Z) (s : state) : outcome Z :=
  get_free_block_from (S (base.size (hdrs s))) (hdrs s) size (head s).

Definition malloc (dm : data_model) (size : Z) (s : state) : outcome (Z * state) :=
  let s := record_call (Call_malloc size) s in
  if size =? 0 then Ok (NULL, s)
  else
    header ← get_free_block size s;
    if negb (header =? NULL) then
      (* header->s.is_free = 0; return (void * )(header + 1); *)
      h ← load (hdrs s) header;
      Ok (wrap dm (header + sizeof_header dm),
          set_hdrs (<[header := set_is_free false h]> (hdrs s)) s)
    else
      let total_size := wrap dm (sizeof_header dm + size) in
      let '(block, s) := sbrk dm (signed dm total_size) s in
      if block =? sbrk_failed dm then Ok (NULL, s)
      else
        let header := block in
        (* header->s.size = size; header->s.is_free = 0; header->s.next = NULL;
           the three stores need the whole header below the break *)
        if brk s <? header + sizeof_header dm then Undefined
        else
        let m := <[header := {| h_size := size; h_is_free := false;
                                h_next := NULL |}]> (hdrs s) in
        let s := set_hdrs m s in
        let s := if head s =? NULL then set_head header s else s in
        s ← (if negb (tail s =? NULL) then
               t ← load (hdrs s) (tail s);
               Ok (set_hdrs (<[tail s := set_next header t]> (hdrs s)) s)
             else Ok s);
        let s := set_tail header s in
        Ok (wrap dm (header + sizeof_header dm), s).

(** The loop of [free] that looks for the node before [tail]. *)
Fixpoint unlink_tail_from (fuel : nat) (s : state) (tmp : Z) : outcome state :=
  match fuel with
  | O => Diverges
  | S fuel' =>
      if tmp =? NULL then Ok s
      else
        h ← load (hdrs s) tmp;
        let s :=
          if h_next h =? tail s then
            set_tail tmp (set_hdrs (<[tmp := set_next NULL h]> (hdrs s)) s)
          else s in
        h ← load (hdrs s) tmp;
        unlink_tail_from fuel' s (h_next h)
  end.

Definition free (dm : data_model) (block : Z) (s : state) : outcome state :=
  let s := record_call (Call_free block) s in
  if block =? NULL then Ok s
  else
    let header := wrap dm (block - sizeof_header dm) in
    let '(programbreak, s) := sbrk dm 0 s in
    h ← load (hdrs s) header;
    if wrap dm (block + h_size h) =? programbreak then
      s ← (if head s =? tail s then Ok (set_tail NULL (set_head NULL s))
           else unlink_tail_from (S (base.size (hdrs s))) s (head s));
      h ← load (hdrs s) header;
      let '(_, s) :=
        sbrk dm (signed dm (wrap dm (0 - sizeof_header dm - h_size h))) s in
      Ok s
    else
      Ok (set_hdrs (<[header := set_is_free true h]> (hdrs s)) s).

Definition calloc (dm : data_model) (num nsize : Z) (s : state)
  : outcome (Z * state) :=
  if (num =? 0) || (nsize =? 0) then Ok (NULL, s)
  else
    let size := wrap dm (num * nsize) in
    if negb (nsize =? size / num) then Ok (NULL, s)
    else
      '(block, s) ← malloc dm size s;
      if block =? NULL then Ok (NULL, s)
      else Ok (block, memset dm block 0 size s).

Definition realloc (dm : data_model) (block size : Z) (s : state)
  : outcome (Z * state) :=
  if (block =? NULL) || (size =? 0) then malloc dm size s
  else
    let header := wrap dm (block - sizeof_header dm) in
    h ← load (hdrs s) header;
    if size <=? h_size h then Ok (block, s)
    else
      '(ret, s) ← malloc dm size s;
      if negb (ret =? NULL) then
        h ← load (hdrs s) header;
        let s := memcpy dm ret block (h_size h) s in
        s ← free dm block s;
        Ok (ret, s)
      else Ok (ret, s).

(** ** Well-formed heaps *)

(** [pathb m a l b]: following the [next] fields from [a] visits exactly
    the headers [l], none of them [NULL], and arrives at [b]. *)
Fixpoint pathb (m : gmap Z header) (a : Z) (l : list Z) (b : Z) : bool :=
  match l with
  | [] => a =? b
  | x :: l' =>
      (x =? a) && negb (a =? NULL) &&
      match m !! a with
      | Some h => pathb m (h_next h) l' b
      | None => false
      end
  end.

(** The list that starts at [a] is [l], in order, and ends in [NULL]. *)
Definition chainb (m : gmap Z header) (a : Z) (l : list Z) : bool :=
  pathb m a l NULL.

(** [laid_out hsz bound m a l e]: the blocks [l] fill the addresses from
    [a] to [e] without a gap, each one its header of [hsz] bytes followed
    by a payload of the recorded size, which is not zero; header and
    payload together stay below [bound]. *)
Fixpoint laid_out (hsz bound : Z) (m : gmap Z header) (a : Z) (l : list Z)
  (e : Z) : bool :=
  match l with
  | [] => a =? e
  | x :: l' =>
      (x =? a) &&
      match m !! a with
      | Some h =>
          (0 <? h_size h) && (hsz + h_size h <? bound) &&
          laid_out hsz bound m (a + hsz + h_size h) l' e
      | None => false
      end
  end.

(** The invariant of the allocator: [l] lists the headers from [head] in
    creation order, [tail] is the last of them, the blocks lie one after
    the other and end at the break, and the system grants no break so
    high that a block address would wrap around.  A block is smaller
    than half the address space, as the signed parameter of [sbrk]
    requires. *)
Definition wfb (dm : data_model) (s : state) (l : list Z) : bool :=
  chainb (hdrs s) (head s) l &&
  (tail s =? List.last l NULL) &&
  (0 <? brk s) && (brk s <=? limit s) &&
  (limit s + sizeof_header dm <? modulus dm) &&
  match l with
  | [] => true
  | a :: _ =>
      (0 <? a) &&
      laid_out (sizeof_header dm) (half_modulus dm) (hdrs s) a l (brk s)
  end.

Definition wf (dm : data_model) (s : state) (l : list Z) : Prop :=
  wfb dm s l = true.

(** ** First fit, as the specification words it *)

(** The block at [a] is free and its recorded size is at least [size]. *)
Definition fits (m : gmap Z header) (size a : Z) : bool :=
  match m !! a with
  | Some h => h_is_free h && (size <=? h_size h)
  | None => false
  end.

(** Traverse the blocks in creation order and return the first that
    fits, or none. *)
Definition find_first_fit (m : gmap Z header) (size : Z) (l : list Z) : Z :=
  match find (fits m size) l with
  | Some a => a
  | None => NULL
  end.

(** ** Small heaps

    Heaps of an LP64 process whose break starts at 4096, written out,
    and the calls that produce them. *)

Definition fresh_heap : state := initial 4096 8192.

(** After [x = malloc(16); y = malloc(32)]: [x] is 4120 and [y] 4160. *)
Definition two_blocks : state :=
  {| hdrs := {[ 4096 := {| h_size := 16; h_is_free := false; h_next := 4136 |};
                4136 := {| h_size := 32; h_is_free := false; h_next := NULL |} ]};
     bytes := ∅; head := 4096; tail := 4136; brk := 4192; limit := 8192;
     trace := [Call_sbrk 56; Call_malloc 32; Call_sbrk 40; Call_malloc 16] |}.

Definition run_two_blocks : outcome state :=
  '(_, s) ← malloc LP64 16 fresh_heap;
  '(_, s) ← malloc LP64 32 s;
  Ok s.

(** After the client then wrote 7 into the ninth byte of [x] and called
    [free(x)]. *)
Definition first_freed : state :=
  {| hdrs := {[ 4096 := {| h_size := 16; h_is_free := true; h_next := 4136 |};
                4136 := {| h_size := 32; h_is_free := false; h_next := NULL |} ]};
     bytes := {[ 4128 := 7 ]}; head := 4096; tail := 4136; brk := 4192;
     limit := 8192;
     trace := [Call_sbrk 0; Call_free 4120;
               Call_sbrk 56; Call_malloc 32; Call_sbrk 40; Call_malloc 16] |}.

Definition run_first_freed : outcome state :=
  free LP64 4120 (poke 4128 7 two_blocks).

(** After [x = malloc(16)] in a process that is granted no more memory. *)
Definition full_heap : state :=
  {| hdrs := {[ 4096 := {| h_size := 16; h_is_free := false; h_next := NULL |} ]};
     bytes := ∅; head := 4096; tail := 4096; brk := 4136; limit := 4136;
     trace := [Call_sbrk 40; Call_malloc 16] |}.

Definition run_full_heap : outcome state :=
  '(_, s) ← malloc LP64 16 (initial 4096 4136);
  Ok s.

(** After [x = malloc(16)] alone. *)
Definition one_block : state :=
  {| hdrs := {[ 4096 := {| h_size := 16; h_is_free := false; h_next := NULL |} ]};
     bytes := ∅; head := 4096; tail := 4096; brk := 4136; limit := 8192;
     trace := [Call_sbrk 40; Call_malloc 16] |}.

(** [two_blocks] after the client wrote 7 into the ninth byte of [x]. *)
Definition two_blocks_written : state := poke 4128 7 two_blocks.

(** ** The diagnostic listing *)

(** What [print_mem_list] hands to [printf]: first the two globals, then
    for each block its address and its three fields ([is_free] is
    printed with [%u]). *)
Inductive printed :=
| Printed_globals (head tail : Z)
| Printed_block (addr size is_free next : Z).

(** The loop of [print_mem_list], started at [curr]. *)
Fixpoint print_mem_list_from (fuel : nat) (m : gmap Z header) (curr : Z)
  : outcome (list printed) :=
  match fuel with
  | O => Diverges
  | S fuel' =>
      if curr =? NULL then Ok []
      else
        h ← load m curr;
        rest ← print_mem_list_from fuel' m (h_next h);
        Ok (Printed_block curr (h_size h) (Z.b2z (h_is_free h)) (h_next h)
              :: rest)
  end.

Definition print_mem_list (s : state) : outcome (list printed) :=
  rest ← print_mem_list_from (S (base.size (hdrs s))) (hdrs s) (head s);
  Ok (Printed_globals (head s) (tail s) :: rest).

(** ** Heaps that a client can reach *)

(** [block] is an address [malloc] returned whose header is on the list:
    the header lies [sizeof(header_t)] bytes before it. *)
Definition on_list (dm : data_model) (s : state) (block : Z) : Prop :=
  exists l, chainb (hdrs s) (head s) l = true /\
            block - sizeof_header dm ∈ l.

(** The heaps a client reaches from a fresh process by calling the four
    operations and writing into payload bytes.  The client passes [free]
    and [realloc] only [NULL] or the address of a block that is on the
    list, and asks for sizes that, with a header, stay below half the
    address space. *)
Inductive reachable (dm : data_model) : state -> Prop :=
| reach_initial brk0 lim :
    0 < brk0 <= lim -> lim + sizeof_header dm < modulus dm ->
    reachable dm (initial brk0 lim)
| reach_malloc s size r s' :
    reachable dm s ->
    0 <= size -> sizeof_header dm + size < half_modulus dm ->
    malloc dm size s = Ok (r, s') ->
    reachable dm s'
| reach_free s block s' :
    reachable dm s ->
    block = NULL \/ on_list dm s block ->
    free dm block s = Ok s' ->
    reachable dm s'
| reach_calloc s num nsize r s' :
    reachable dm s ->
    0 <= num -> 0 <= nsize ->
    sizeof_header dm + num * nsize < half_modulus dm ->
    calloc dm num nsize s = Ok (r, s') ->
    reachable dm s'
| reach_realloc s block size r s' :
    reachable dm s ->
    block = NULL \/ on_list dm s block ->
    0 <= size -> sizeof_header dm + size < half_modulus dm ->
    realloc dm block size s = Ok (r, s') ->
    reachable dm s'
| reach_poke s a v :
    reachable dm s ->
    reachable dm (poke a v s).

(** * Properties *)

(** Runs the monadic glue of the model and nothing else. *)
Ltac run := cbn [mbind outcome_bind mret outcome_ret negb andb orb fst snd].
Tactic Notation "run" "in" hyp(H) :=
  cbn [mbind outcome_bind mret outcome_ret negb andb orb fst snd] in H.

(** Reads the fields of a state through its updates. *)
Ltac fields :=
  cbn [hdrs bytes head tail brk limit trace record_call
       set_hdrs set_bytes set_head set_tail set_brk].
Tactic Notation "fields" "in" hyp(H) :=
  cbn [hdrs bytes head tail brk limit trace record_call
       set_hdrs set_bytes set_head set_tail set_brk] in H.

Lemma load_Some (m : gmap Z header) a h : m !! a = Some h -> load m a = Ok h.
Proof. intros H. unfold load. rewrite H. reflexivity. Qed.

(** ** Machine integers and the header size *)

Lemma sizeof_header_pos dm : 0 < sizeof_header dm.
Proof. destruct dm; reflexivity. Qed.

Lemma modulus_pos dm : 0 < modulus dm.
Proof. destruct dm; reflexivity. Qed.

Lemma half_modulus_double dm : modulus dm = 2 * half_modulus dm.
Proof. destruct dm; reflexivity. Qed.

Lemma wrap_small dm z : 0 <= z < modulus dm -> wrap dm z = z.
Proof. intros H. unfold wrap. apply Z.mod_small. exact H. Qed.

Lemma signed_neg dm z :
  0 < z <= half_modulus dm -> signed dm (wrap dm (0 - z)) = - z.
Proof.
  intros Hz. pose proof (half_modulus_double dm) as Hd.
  assert (Hw : wrap dm (0 - z) = modulus dm - z).
  { unfold wrap. replace (0 - z) with ((modulus dm - z) + (-1) * modulus dm) by lia.
    rewrite Z.mod_add by lia. apply Z.mod_small. lia. }
  rewrite Hw. unfold signed.
  destruct (Z.ltb_spec (modulus dm - z) (half_modulus dm)); lia.
Qed.

Lemma signed_small dm z : 0 <= z < half_modulus dm -> signed dm z = z.
Proof.
  intros Hz. unfold signed.
  destruct (Z.ltb_spec z (half_modulus dm)); lia.
Qed.

(** ** Paths through the list *)

Lemma pathb_cons m a x l b :
  pathb m a (x :: l) b = true <->
  x = a /\ a <> NULL /\ exists h, m !! a = Some h /\ pathb m (h_next h) l b = true.
Proof.
  simpl. rewrite !andb_true_iff, negb_true_iff, Z.eqb_eq, Z.eqb_neq.
  destruct (m !! a) as [h|]; split.
  - intros [[-> Hn] Hp]. eauto.
  - intros (-> & Hn & h' & [= <-] & Hp). auto.
  - intros [_ ?]. discriminate.
  - intros (_ & _ & h' & ? & _). discriminate.
Qed.

Lemma pathb_app m l1 : forall a l2 b,
  pathb m a (l1 ++ l2) b = true <->
  exists c, pathb m a l1 c = true /\ pathb m c l2 b = true.
Proof.
  induction l1 as [|x l1 IH]; intros a l2 b.
  - simpl. split.
    + intros H. exists a. rewrite Z.eqb_refl. auto.
    + intros (c & Hc & H). apply Z.eqb_eq in Hc. subst c. exact H.
  - rewrite <- app_comm_cons. rewrite pathb_cons. split.
    + intros (-> & Hn & h & Hh & Hp). apply IH in Hp as (c & H1 & H2).
      exists c. split; [|exact H2]. apply pathb_cons. eauto.
    + intros (c & H1 & H2). apply pathb_cons in H1 as (-> & Hn & h & Hh & Hp).
      repeat split; auto. exists h. split; [exact Hh|]. apply IH. eauto.
Qed.

Lemma pathb_nonnull m l : forall a b x,
  pathb m a l b = true -> x ∈ l -> x <> NULL.
Proof.
  induction l as [|y l IH]; intros a b x Hp Hx.
  - inversion Hx.
  - apply pathb_cons in Hp as (-> & Hn & h & Hh & Hp).
    apply elem_of_cons in Hx as [-> | Hx]; [exact Hn|]. eapply IH; eauto.
Qed.

Lemma pathb_lookup m l : forall a b x,
  pathb m a l b = true -> x ∈ l -> is_Some (m !! x).
Proof.
  induction l as [|y l IH]; intros a b x Hp Hx.
  - inversion Hx.
  - apply pathb_cons in Hp as (-> & Hn & h & Hh & Hp).
    apply elem_of_cons in Hx as [-> | Hx]; [eauto|]. eapply IH; eauto.
Qed.

(** A path is determined by its start when it ends in [NULL]. *)
Lemma chainb_det m l1 : forall a l2,
  chainb m a l1 = true -> chainb m a l2 = true -> l1 = l2.
Proof.
  unfold chainb. induction l1 as [|x l1 IH]; intros a l2 H1 H2.
  - simpl in H1. apply Z.eqb_eq in H1. subst a.
    destruct l2 as [|y l2]; [reflexivity|].
    apply pathb_cons in H2 as (_ & Hn & _). congruence.
  - apply pathb_cons in H1 as (-> & Hn & h & Hh & Hp).
    destruct l2 as [|y l2].
    + simpl in H2. apply Z.eqb_eq in H2. congruence.
    + apply pathb_cons in H2 as (-> & _ & h' & Hh' & Hp').
      rewrite Hh in Hh'. injection Hh' as <-. f_equal. eapply IH; eauto.
Qed.

Lemma chainb_NoDup m l : forall a, chainb m a l = true -> NoDup l.
Proof.
  induction l as [|x l IH]; intros a H.
  - constructor.
  - pose proof H as H0. unfold chainb in H.
    apply pathb_cons in H as (-> & Hn & h & Hh & Hp).
    constructor; [|eapply IH; exact Hp].
    intros Hin. apply list_elem_of_split in Hin as (l1 & l2 & ->).
    pose proof Hp as Hp'. apply pathb_app in Hp' as (c & _ & Hc).
    pose proof Hc as Hc'. apply pathb_cons in Hc' as (<- & _).
    assert (E : a :: l1 ++ a :: l2 = a :: l2) by (eapply chainb_det; eauto).
    apply (f_equal (@length Z)) in E. simpl in E. rewrite length_app in E.
    simpl in E. lia.
Qed.

(** A chain has no more nodes than there are headers in the heap. *)
Lemma chainb_length m a l :
  chainb m a l = true -> (length l <= base.size m)%nat.
Proof.
  intros H. rewrite <- (size_dom (D := gset Z)).
  change (length l <= length (elements (dom m : gset Z)))%nat.
  apply submseteq_length, NoDup_submseteq.
  - eapply chainb_NoDup; eauto.
  - intros x Hx. apply elem_of_elements, elem_of_dom.
    eapply pathb_lookup; eauto.
Qed.

(** ** Blocks laid out one after the other *)

Lemma laid_out_cons hsz bound m a x l e :
  laid_out hsz bound m a (x :: l) e = true <->
  x = a /\ exists h, m !! a = Some h /\ 0 < h_size h /\ hsz + h_size h < bound /\
                     laid_out hsz bound m (a + hsz + h_size h) l e = true.
Proof.
  simpl. rewrite andb_true_iff, Z.eqb_eq.
  destruct (m !! a) as [h|]; split.
  - rewrite !andb_true_iff, !Z.ltb_lt. intros (-> & (H1 & H2) & H3). eauto 10.
  - intros (-> & h' & [= <-] & H1 & H2 & H3).
    rewrite !andb_true_iff, !Z.ltb_lt. auto.
  - intros [_ ?]. discriminate.
  - intros (_ & h' & ? & _). discriminate.
Qed.

Lemma laid_out_app hsz bound m l1 : forall a l2 e,
  laid_out hsz bound m a (l1 ++ l2) e = true <->
  exists c, laid_out hsz bound m a l1 c = true /\
            laid_out hsz bound m c l2 e = true.
Proof.
  induction l1 as [|x l1 IH]; intros a l2 e.
  - simpl. split.
    + intros H. exists a. rewrite Z.eqb_refl. auto.
    + intros (c & Hc & H). apply Z.eqb_eq in Hc. subst c. exact H.
  - rewrite <- app_comm_cons. rewrite laid_out_cons. split.
    + intros (-> & h & Hh & H1 & H2 & Hl). apply IH in Hl as (c & Hl1 & Hl2).
      exists c. split; [|exact Hl2]. apply laid_out_cons. eauto 10.
    + intros (c & Hl1 & Hl2).
      apply laid_out_cons in Hl1 as (-> & h & Hh & H1 & H2 & Hl).
      split; [reflexivity|]. exists h. repeat split; auto. apply IH. eauto.
Qed.

Lemma laid_out_le hsz bound m l : forall a e,
  0 < hsz -> laid_out hsz bound m a l e = true ->
  a <= e /\ (l <> [] -> a < e).
Proof.
  induction l as [|x l IH]; intros a e Hs H.
  - simpl in H. apply Z.eqb_eq in H. subst. split; [lia|congruence].
  - apply laid_out_cons in H as (-> & h & Hh & H1 & H2 & Hl).
    apply IH in Hl as [Hle _]; [|exact Hs]. split; [lia|intros _; lia].
Qed.

Lemma laid_out_elem hsz bound m l : forall a e x,
  0 < hsz -> laid_out hsz bound m a l e = true -> x ∈ l ->
  exists h, m !! x = Some h /\ a <= x /\ 0 < h_size h /\
            hsz + h_size h < bound /\ x + hsz + h_size h <= e.
Proof.
  induction l as [|y l IH]; intros a e x Hs H Hx.
  - inversion Hx.
  - apply laid_out_cons in H as (-> & h & Hh & H1 & H2 & Hl).
    apply elem_of_cons in Hx as [-> | Hx].
    + exists h. apply laid_out_le in Hl as [Hle _]; [|exact Hs].
      repeat split; auto; lia.
    + destruct (IH _ _ _ Hs Hl Hx) as (h' & Hh' & Ha & H1' & H2' & He).
      exists h'. repeat split; auto; lia.
Qed.

(** Only the last block of the layout ends where the layout ends. *)
Lemma laid_out_terminal hsz bound m l : forall a e x h,
  0 < hsz -> laid_out hsz bound m a l e = true -> x ∈ l ->
  m !! x = Some h -> x + hsz + h_size h = e ->
  exists l', l = l' ++ [x].
Proof.
  induction l as [|y l IH]; intros a e x h Hs H Hx Hh He.
  - inversion Hx.
  - apply laid_out_cons in H as (-> & hy & Hhy & H1 & H2 & Hl).
    destruct l as [|z l].
    + apply list_elem_of_singleton in Hx. subst x. exists []. reflexivity.
    + apply elem_of_cons in Hx as [-> | Hx].
      * rewrite Hhy in Hh. injection Hh as <-.
        apply laid_out_le in Hl as [_ Hlt]; [|exact Hs].
        specialize (Hlt ltac:(discriminate)). lia.
      * destruct (IH _ _ _ _ Hs Hl Hx Hh He) as (l' & E).
        exists (a :: l'). rewrite E. reflexivity.
Qed.

(** The layout reads the size fields only, the path the [next] fields. *)
Lemma laid_out_ext hsz bound m m' l : forall a e,
  (forall x, x ∈ l -> h_size <$> (m' !! x) = h_size <$> (m !! x)) ->
  laid_out hsz bound m a l e = true -> laid_out hsz bound m' a l e = true.
Proof.
  induction l as [|y l IH]; intros a e Hext H.
  - exact H.
  - apply laid_out_cons in H as (-> & h & Hh & H1 & H2 & Hl).
    pose proof (Hext a ltac:(left)) as Ha. rewrite Hh in Ha.
    destruct (m' !! a) as [h'|] eqn:Hh'; [|discriminate].
    simpl in Ha. injection Ha as Ha.
    apply laid_out_cons. split; [reflexivity|]. exists h'.
    rewrite Ha. repeat split; auto.
    apply IH; [|exact Hl]. intros x Hx. apply Hext. right. exact Hx.
Qed.

Lemma pathb_ext m m' l : forall a b,
  (forall x, x ∈ l -> h_next <$> (m' !! x) = h_next <$> (m !! x)) ->
  pathb m a l b = true -> pathb m' a l b = true.
Proof.
  induction l as [|y l IH]; intros a b Hext H.
  - exact H.
  - apply pathb_cons in H as (-> & Hn & h & Hh & Hp).
    pose proof (Hext a ltac:(left)) as Ha. rewrite Hh in Ha.
    destruct (m' !! a) as [h'|] eqn:Hh'; [|discriminate].
    simpl in Ha. injection Ha as Ha.
    apply pathb_cons. split; [reflexivity|]. split; [exact Hn|].
    exists h'. split; [exact Hh'|]. rewrite Ha.
    apply IH; [|exact Hp]. intros x Hx. apply Hext. right. exact Hx.
Qed.

(** ** The invariant, unfolded *)

Lemma wf_unfold dm s l :
  wf dm s l <->
  chainb (hdrs s) (head s) l = true /\
  tail s = List.last l NULL /\
  0 < brk s /\ brk s <= limit s /\ limit s + sizeof_header dm < modulus dm /\
  match l with
  | [] => True
  | a :: _ =>
      0 < a /\
      laid_out (sizeof_header dm) (half_modulus dm) (hdrs s) a l (brk s) = true
  end.
Proof.
  unfold wf, wfb. rewrite !andb_true_iff, Z.eqb_eq, !Z.ltb_lt, Z.leb_le.
  destruct l as [|a l].
  - tauto.
  - rewrite andb_true_iff, Z.ltb_lt. tauto.
Qed.

(** What the invariant says of a block of the list. *)
Lemma wf_block dm s l a :
  wf dm s l -> a ∈ l ->
  exists h, hdrs s !! a = Some h /\ 0 < a /\ 0 < h_size h /\
            sizeof_header dm + h_size h < half_modulus dm /\
            a + sizeof_header dm + h_size h <= brk s /\
            brk s + sizeof_header dm < modulus dm.
Proof.
  intros H Ha. apply wf_unfold in H as (Hc & Ht & Hb & Hl & Hm & Hlay).
  destruct l as [|x l]; [inversion Ha|]. destruct Hlay as [Hx Hlay].
  destruct (laid_out_elem _ _ _ _ _ _ _ (sizeof_header_pos dm) Hlay Ha)
    as (h & Hh & H1 & H2 & H3 & H4).
  exists h. repeat split; auto; lia.
Qed.

(** ** The free-block search *)

Lemma get_free_block_from_chain m size l : forall fuel a,
  chainb m a l = true -> (length l < fuel)%nat ->
  get_free_block_from fuel m size a = Ok (find_first_fit m size l).
Proof.
  unfold chainb, find_first_fit.
  induction l as [|x l IH]; intros fuel a Hc Hf.
  - simpl in Hc. destruct fuel as [|fuel]; [simpl in Hf; lia|].
    simpl. rewrite Hc. reflexivity.
  - apply pathb_cons in Hc as (-> & Hn & h & Hh & Hp).
    destruct fuel as [|fuel]; [simpl in Hf; lia|].
    simpl. apply Z.eqb_neq in Hn. rewrite Hn.
    unfold load, fits. rewrite Hh. simpl.
    destruct (h_is_free h && (size <=? h_size h)); [reflexivity|].
    apply IH; [exact Hp | simpl in Hf; lia].
Qed.

Lemma find_first_split (f : Z -> bool) l r :
  find f l = Some r ->
  exists l1 l2, l = l1 ++ r :: l2 /\ f r = true /\
                forall b, b ∈ l1 -> f b = false.
Proof.
  induction l as [|x l IH]; intros H; [discriminate|].
  simpl in H. destruct (f x) eqn:Hx.
  - injection H as <-. exists [], l. repeat split; auto.
    intros b Hb. inversion Hb.
  - destruct (IH H) as (l1 & l2 & -> & Hr & Hb).
    exists (x :: l1), l2. repeat split; auto.
    intros b Hin. apply elem_of_cons in Hin as [-> | Hin]; auto.
Qed.

Lemma get_free_block_chain (s : state) (size : Z) (l : list Z) :
  chainb (hdrs s) (head s) l = true ->
  get_free_block size s = Ok (find_first_fit (hdrs s) size l).
Proof.
  intros Hc. unfold get_free_block. apply get_free_block_from_chain; [exact Hc|].
  apply chainb_length in Hc. lia.
Qed.

Lemma find_first_fit_spec (m : gmap Z header) (size a0 : Z) (l : list Z) :
  chainb m a0 l = true ->
  (find_first_fit m size l = NULL <-> forall a, a ∈ l -> fits m size a = false) /\
  (find_first_fit m size l <> NULL ->
   exists l1 l2, l = l1 ++ find_first_fit m size l :: l2 /\
                 fits m size (find_first_fit m size l) = true /\
                 forall b, b ∈ l1 -> fits m size b = false).
Proof.
  intros Hc. unfold find_first_fit.
  destruct (find (fits m size) l) as [r|] eqn:Hf.
  - destruct (find_first_split _ _ _ Hf) as (l1 & l2 & -> & Hr & Hb).
    assert (Hn : r <> NULL).
    { eapply pathb_nonnull; [exact Hc|]. apply elem_of_app. right. left. }
    split; [split|].
    + intros E. contradiction.
    + intros Hall. rewrite Hall in Hr; [discriminate|].
      apply elem_of_app. right. left.
    + intros _. exists l1, l2. auto.
  - split; [split|]; [| reflexivity | intros E; contradiction].
    intros _ a Ha. apply list_elem_of_In in Ha.
    eapply find_none in Hf; eauto.
Qed.

(** C2: on a list that runs from [head] to [NULL], the search returns the
    first block in creation order that is free and whose recorded size is
    at least the request, and returns [NULL] exactly when no block of the
    list is both. *)
Theorem get_free_block_first_fit (s : state) (size : Z) (l : list Z) :
  chainb (hdrs s) (head s) l = true ->
  exists r,
    get_free_block size s = Ok r /\
    r = find_first_fit (hdrs s) size l /\
    (r = NULL <-> forall a, a ∈ l -> fits (hdrs s) size a = false) /\
    (r <> NULL ->
     exists l1 l2, l = l1 ++ r :: l2 /\ fits (hdrs s) size r = true /\
                   forall b, b ∈ l1 -> fits (hdrs s) size b = false).
Proof.
  intros Hc. exists (find_first_fit (hdrs s) size l).
  split; [apply get_free_block_chain; exact Hc|].
  split; [reflexivity|].
  exact (find_first_fit_spec (hdrs s) size (head s) l Hc).
Qed.

Lemma get_free_block_from_found m size : forall fuel curr a,
  get_free_block_from fuel m size curr = Ok a -> a <> NULL ->
  exists h, m !! a = Some h /\ h_is_free h = true /\ size <= h_size h.
Proof.
  induction fuel as [|fuel IH]; intros curr a H Ha; [discriminate|].
  simpl in H. destruct (curr =? NULL) eqn:Hc.
  - injection H as <-. contradiction.
  - unfold load in H. destruct (m !! curr) as [h|] eqn:Hh; [|discriminate].
    simpl in H.
    destruct (h_is_free h && (size <=? h_size h)) eqn:Hfit.
    + injection H as <-. apply andb_true_iff in Hfit as [Hfree Hle].
      apply Z.leb_le in Hle. eauto.
    + eapply IH; eauto.
Qed.

(** ** [malloc] *)

(** C3: when the search finds a free block, [malloc] returns the address
    just after its header.  In the state it leaves, the header of that
    block has [is_free] false and the size and the link it had before,
    a size at least the requested one; every other header, the payload
    bytes, [head], [tail] and the break are as they were, and no call is
    made. *)
Theorem malloc_reuse_keeps_size (dm : data_model) (s : state) (size a : Z) :
  size <> 0 ->
  get_free_block size s = Ok a ->
  a <> NULL ->
  exists h s',
    hdrs s !! a = Some h /\ h_is_free h = true /\ size <= h_size h /\
    malloc dm size s = Ok (wrap dm (a + sizeof_header dm), s') /\
    hdrs s' !! a =
      Some {| h_size := h_size h; h_is_free := false; h_next := h_next h |} /\
    (forall x, x <> a -> hdrs s' !! x = hdrs s !! x) /\
    bytes s' = bytes s /\ head s' = head s /\ tail s' = tail s /\
    brk s' = brk s /\ limit s' = limit s /\
    trace s' = Call_malloc size :: trace s.
Proof.
  intros Hsz Hg Ha.
  destruct (get_free_block_from_found _ _ _ _ _ Hg Ha) as (h & Hh & Hfree & Hle).
  exists h. eexists. split; [exact Hh|]. split; [exact Hfree|]. split; [exact Hle|].
  split.
  { unfold malloc. apply Z.eqb_neq in Hsz. rewrite Hsz.
    change (get_free_block size (record_call (Call_malloc size) s))
      with (get_free_block size s).
    rewrite Hg. run. apply Z.eqb_neq in Ha. rewrite Ha. run.
    unfold load. fields. rewrite Hh. reflexivity. }
  fields. split; [rewrite lookup_insert_eq; reflexivity|].
  split; [intros x Hx; apply lookup_insert_ne; congruence|].
  repeat split.
Qed.

Lemma sbrk_cases dm inc s b s1 :
  sbrk dm inc s = (b, s1) ->
  (b = sbrk_failed dm /\ s1 = record_call (Call_sbrk inc) s) \/
  (b = brk s /\ hdrs s1 = hdrs s /\ bytes s1 = bytes s /\ head s1 = head s /\
   tail s1 = tail s /\ limit s1 = limit s).
Proof.
  unfold sbrk. fields. intros H.
  destruct (inc =? 0).
  - injection H as <- <-. right. auto 10.
  - destruct ((brk s + inc <? 0) || (limit s <? brk s + inc)).
    + injection H as <- <-. left. auto.
    + injection H as <- <-. right. auto 10.
Qed.

Lemma sbrk_failed_above dm z : z + sizeof_header dm < modulus dm -> z <> sbrk_failed dm.
Proof.
  intros H ->. revert H. unfold sbrk_failed.
  destruct dm; vm_compute; intros H; discriminate.
Qed.

Lemma wf_tail_in dm s l : wf dm s l -> tail s <> NULL -> tail s ∈ l.
Proof.
  intros Hwf Hn. apply wf_unfold in Hwf as (_ & Ht & _).
  destruct l as [|x l] using rev_ind.
  - simpl in Ht. contradiction.
  - rewrite last_last in Ht. rewrite Ht. apply elem_of_app. right. left.
Qed.

(** What [malloc] does on a well-formed heap.  Its new header does not
    fit below the break, or it returns: with [NULL] and nothing changed
    when [sbrk] failed, with a free block of the list whose [is_free] it
    cleared, or with a new block whose header it wrote at the former
    break. *)
Lemma malloc_cases dm s l size :
  wf dm s l -> size <> 0 ->
  malloc dm size s = Undefined \/
  exists r s',
    malloc dm size s = Ok (r, s') /\
    ((r = NULL /\
      s' = record_call (Call_sbrk (signed dm (wrap dm (sizeof_header dm + size))))
             (record_call (Call_malloc size) s)) \/
     (exists a h,
        a ∈ l /\ hdrs s !! a = Some h /\ h_is_free h = true /\
        size <= h_size h /\ r = a + sizeof_header dm /\
        s' = set_hdrs (<[a := set_is_free false h]> (hdrs s))
               (record_call (Call_malloc size) s)) \/
     (find_first_fit (hdrs s) size l = NULL /\
      r = brk s + sizeof_header dm /\
      hdrs s' !! brk s =
        Some {| h_size := size; h_is_free := false; h_next := NULL |})).
Proof.
  intros Hwf Hsz. pose proof (sizeof_header_pos dm) as Hhs.
  pose proof Hwf as Hwf'.
  apply wf_unfold in Hwf' as (Hc & Ht & Hb & Hl & Hm & Hlay).
  unfold malloc. apply Z.eqb_neq in Hsz. rewrite Hsz.
  change (get_free_block size (record_call (Call_malloc size) s))
    with (get_free_block size s).
  pose proof (get_free_block_chain s size l Hc) as Hg.
  destruct (find_first_fit_spec (hdrs s) size (head s) l Hc) as (Hnull & Hfound).
  set (a := find_first_fit (hdrs s) size l) in *.
  rewrite Hg. run.
  destruct (Z.eqb_spec a NULL) as [Hz|Hnz]; run.
  - (* no block fits: the heap has to grow *)
    set (inc := signed dm (wrap dm (sizeof_header dm + size))).
    destruct (sbrk dm inc (record_call (Call_malloc size) s)) as [block s1] eqn:Hs.
    apply sbrk_cases in Hs as [[-> ->] | (-> & Hh1 & _ & Hd1 & Ht1 & _)].
    + rewrite Z.eqb_refl. right. eexists _, _. split; [reflexivity|]. left. auto.
    + fields in Hh1. fields in Hd1. fields in Ht1. fields.
      replace (brk s =? sbrk_failed dm) with false
        by (symmetry; apply Z.eqb_neq, sbrk_failed_above; lia).
      destruct (brk s1 <? brk s + sizeof_header dm); [left; reflexivity|].
      right.
      rewrite (wrap_small dm (brk s + sizeof_header dm)) by lia.
      destruct (head s1 =? NULL); fields; rewrite Hh1, Ht1.
      all: destruct (Z.eqb_spec (tail s) NULL) as [Htn|Htn]; run; fields.
      all: try (eexists _, _; split; [reflexivity|]; right; right;
                split; [congruence|]; split; [reflexivity|]; fields;
                apply lookup_insert_eq).
      all: pose proof (wf_tail_in _ _ _ Hwf Htn) as Hin;
           destruct (wf_block _ _ _ _ Hwf Hin) as (ht & Hht & Ht0 & Ht2 & _ & Ht3 & _);
           unfold load; rewrite lookup_insert_ne by lia; rewrite Hht; run;
           eexists _, _; split; [reflexivity|]; right; right;
           split; [congruence|]; split; [reflexivity|]; fields;
           rewrite lookup_insert_ne by lia; apply lookup_insert_eq.
  - (* a free block fits *)
    destruct (Hfound Hnz) as (l1 & l2 & El & Hfit & _).
    assert (Hin : a ∈ l) by (rewrite El; apply elem_of_app; right; left).
    destruct (wf_block _ _ _ _ Hwf Hin) as (h & Hh & Ha0 & Ha1 & _ & Ha2 & Ha3).
    unfold fits in Hfit. rewrite Hh in Hfit.
    apply andb_true_iff in Hfit as [Hfree Hle]. apply Z.leb_le in Hle.
    fields. rewrite (load_Some _ _ _ Hh). run.
    rewrite wrap_small by lia. right.
    eexists _, _. split; [reflexivity|]. right. left. exists a, h. auto 10.
Qed.

Lemma malloc_zero dm s :
  malloc dm 0 s = Ok (NULL, record_call (Call_malloc 0) s).
Proof. reflexivity. Qed.

(** X16: every address other than [NULL] that [malloc] returns on a
    well-formed heap is the address of a header of the heap, marked in
    use, plus [sizeof(header_t)], and the header is found again at the
    address minus [sizeof(header_t)], whatever the data model. *)
Theorem malloc_returns_header_plus_sizeof (dm : data_model) (s : state)
  (l : list Z) (size r : Z) (s' : state) :
  wf dm s l ->
  malloc dm size s = Ok (r, s') ->
  r <> NULL ->
  exists a hd,
    hdrs s' !! a = Some hd /\ h_is_free hd = false /\
    r = a + sizeof_header dm /\
    wrap dm (r - sizeof_header dm) = a.
Proof.
  intros Hwf H Hr.
  pose proof (sizeof_header_pos dm) as Hhs.
  destruct (Z.eq_dec size 0) as [-> | Hsz].
  { rewrite malloc_zero in H. injection H as <- _. contradiction. }
  destruct (malloc_cases dm s l size Hwf Hsz) as [E|(r0 & s0 & E & Hcases)];
      [congruence|].
  rewrite E in H. injection H as -> ->.
  destruct Hcases as [[-> _] | [(a & h & Hin & Hh & _ & _ & -> & ->) | (_ & -> & Hnew)]].
  - contradiction.
  - destruct (wf_block _ _ _ _ Hwf Hin) as (h' & _ & Ha0 & Ha1 & _ & Ha2 & Ha3).
    exists a, (set_is_free false h). fields.
    rewrite lookup_insert_eq. repeat split.
    replace (a + sizeof_header dm - sizeof_header dm) with a by lia.
    apply wrap_small. lia.
  - apply wf_unfold in Hwf as (_ & _ & Hb & Hl & Hm & _).
    eexists _, _. split; [exact Hnew|]. repeat split.
    replace (brk s + sizeof_header dm - sizeof_header dm) with (brk s) by lia.
    apply wrap_small. lia.
Qed.

(** ** [free] *)

Lemma unlink_tail_from_S fuel s tmp :
  unlink_tail_from (S fuel) s tmp =
  if tmp =? NULL then Ok s
  else
    h ← load (hdrs s) tmp;
    let s :=
      if h_next h =? tail s then
        set_tail tmp (set_hdrs (<[tmp := set_next NULL h]> (hdrs s)) s)
      else s in
    h ← load (hdrs s) tmp;
    unlink_tail_from fuel s (h_next h).
Proof. reflexivity. Qed.

Lemma path_first_not_last m (l1 : list Z) (p t c b : Z) :
  pathb m c (l1 ++ [p; t]) b = true -> NoDup (l1 ++ [p; t]) -> c <> t.
Proof.
  intros Hp Hnd ->. destruct l1 as [|y l1].
  - simpl app in Hp, Hnd. apply pathb_cons in Hp as (-> & _).
    apply NoDup_cons in Hnd as [Hnin _]. apply Hnin. left.
  - rewrite <- app_comm_cons in Hp, Hnd. apply pathb_cons in Hp as (-> & _).
    apply NoDup_cons in Hnd as [Hnin _]. apply Hnin.
    apply elem_of_app. right. right. left.
Qed.

(** On a list that ends with [p] then [tail], the loop of [free] clears
    the [next] field of [p], makes [p] the tail and touches nothing else. *)
Lemma unlink_tail_from_chain (l1 : list Z) : forall fuel s a p t hp,
  pathb (hdrs s) a (l1 ++ [p; t]) NULL = true ->
  NoDup (l1 ++ [p; t]) ->
  tail s = t ->
  hdrs s !! p = Some hp ->
  (length l1 + 2 <= fuel)%nat ->
  unlink_tail_from fuel s a =
    Ok (set_tail p (set_hdrs (<[p := set_next NULL hp]> (hdrs s)) s)).
Proof.
  induction l1 as [|x l1 IH]; intros fuel s a p t hp Hp Hnd Ht Hhp Hf.
  - simpl app in Hp. apply pathb_cons in Hp as (-> & Hn & h & Hh & Hp).
    rewrite Hhp in Hh. injection Hh as <-.
    apply pathb_cons in Hp as (Hnext & _).
    destruct fuel as [|[|fuel]]; [simpl in Hf; lia | simpl in Hf; lia |].
    rewrite unlink_tail_from_S. apply Z.eqb_neq in Hn. rewrite Hn.
    rewrite (load_Some _ _ _ Hhp). run.
    replace (h_next hp =? tail s) with true by (symmetry; apply Z.eqb_eq; congruence).
    unfold load. fields. rewrite lookup_insert_eq. run.
    rewrite unlink_tail_from_S. reflexivity.
  - rewrite <- app_comm_cons in Hp, Hnd.
    apply pathb_cons in Hp as (-> & Hn & h & Hh & Hp).
    destruct fuel as [|fuel]; [simpl in Hf; lia|].
    rewrite unlink_tail_from_S. apply Z.eqb_neq in Hn. rewrite Hn.
    rewrite (load_Some _ _ _ Hh). run.
    pose proof Hnd as Hnd'. apply NoDup_cons in Hnd' as [_ Hnd'].
    assert (Hne : h_next h <> tail s).
    { rewrite Ht. eapply path_first_not_last; eauto. }
    apply Z.eqb_neq in Hne. rewrite Hne. run.
    rewrite (load_Some _ _ _ Hh). run.
    eapply IH; eauto. simpl in Hf. lia.
Qed.

Lemma sbrk_shrink dm s z :
  0 < z -> 0 <= brk s - z -> brk s <= limit s ->
  sbrk dm (- z) s =
    (brk s, set_brk (brk s - z) (record_call (Call_sbrk (- z)) s)).
Proof.
  intros Hz Hlo Hhi. unfold sbrk. fields.
  replace (- z =? 0) with false by (symmetry; apply Z.eqb_neq; lia).
  replace (brk s + - z <? 0) with false by (symmetry; apply Z.ltb_ge; lia).
  replace (limit s <? brk s + - z) with false by (symmetry; apply Z.ltb_ge; lia).
  reflexivity.
Qed.

Lemma sbrk_zero dm s : sbrk dm 0 s = (brk s, record_call (Call_sbrk 0) s).
Proof. reflexivity. Qed.

(** The run of [free] on a block of the list that ends at the break. *)
Lemma free_terminal_run (dm : data_model) (s : state) (l : list Z) (a : Z)
  (h : header) :
  wf dm s l ->
  a ∈ l ->
  hdrs s !! a = Some h ->
  wrap dm (a + sizeof_header dm + h_size h) = brk s ->
  exists s',
    tail s = a /\
    free dm (a + sizeof_header dm) s = Ok s' /\
    brk s' = brk s - (sizeof_header dm + h_size h) /\
    (head s = tail s ->
     head s' = NULL /\ tail s' = NULL /\ hdrs s' = hdrs s) /\
    (head s <> tail s ->
     exists p hp,
       hdrs s !! p = Some hp /\ h_next hp = a /\
       hdrs s' = <[p := set_next NULL hp]> (hdrs s) /\
       tail s' = p /\ head s' = head s) /\
    wf dm s' (removelast l).
Proof.
  intros Hwf Ha Hh Hterm.
  destruct (wf_block _ _ _ _ Hwf Ha) as (h' & Hh' & Hpos & Hsz & Hhalf & Hend & Hmod).
  rewrite Hh in Hh'. injection Hh' as <-.
  pose proof (sizeof_header_pos dm) as Hhs.
  pose proof (half_modulus_double dm) as Hd.
  rewrite wrap_small in Hterm by lia.
  apply wf_unfold in Hwf as (Hc & Ht & Hb & Hl & Hm & Hlay).
  destruct l as [|x l]; [inversion Ha|]. destruct Hlay as [Hx Hlay].
  destruct (laid_out_terminal _ _ _ _ _ _ _ _ Hhs Hlay Ha Hh Hterm) as (l' & E).
  assert (Htail : tail s = a) by (rewrite Ht, E; apply last_last).
  assert (Hhead : head s = x).
  { unfold chainb in Hc. apply pathb_cons in Hc as (-> & _). reflexivity. }
  unfold free.
  replace (a + sizeof_header dm =? NULL) with false
    by (symmetry; apply Z.eqb_neq; unfold NULL; lia).
  rewrite sbrk_zero. run. fields.
  replace (a + sizeof_header dm - sizeof_header dm) with a by lia.
  rewrite (wrap_small dm a) by lia.
  rewrite (load_Some _ _ _ Hh). run.
  replace (a + sizeof_header dm + h_size h) with (brk s) by lia.
  rewrite (wrap_small dm (brk s)) by lia. rewrite Z.eqb_refl.
  set (z := sizeof_header dm + h_size h).
  assert (Hz : signed dm (wrap dm (0 - sizeof_header dm - h_size h)) = - z).
  { replace (0 - sizeof_header dm - h_size h) with (0 - z) by (unfold z; lia).
    apply signed_neg. unfold z. lia. }
  rewrite E in Hc, Ht, Hlay, Ha |- *. clear E l.
  induction l' as [|p l1 _] using rev_ind.
  - (* the released block is the only one *)
    simpl app in *. apply laid_out_cons in Hlay as (-> & _).
    rewrite Hhead, Htail, Z.eqb_refl. run. fields.
    rewrite (load_Some _ _ _ Hh). run. rewrite Hz.
    rewrite sbrk_shrink by (fields; unfold z; lia).
    eexists. split; [first [exact Htail | reflexivity]|].
    split; [reflexivity|]. fields.
    split; [reflexivity|]. split; [auto|]. split; [congruence|].
    apply wf_unfold. fields. simpl removelast.
    repeat split; auto; unfold z; lia.
  - (* the released block comes after [p] *)
    rewrite <- app_assoc in Hc, Hlay, Ha. simpl app in Hc, Hlay, Ha.
    pose proof (chainb_NoDup _ _ _ Hc) as Hnd.
    pose proof (chainb_length _ _ _ Hc) as Hlen.
    rewrite length_app in Hlen. simpl in Hlen.
    assert (Hne : head s <> tail s).
    { rewrite Htail. eapply path_first_not_last; eauto. }
    pose proof Hc as Hc'. apply pathb_app in Hc' as (c & Hc1 & Hc2).
    apply pathb_cons in Hc2 as (<- & Hpn & hp & Hhp & Hc2).
    apply pathb_cons in Hc2 as (Hnext & _).
    assert (Hpa : p <> a).
    { intros ->. apply NoDup_app in Hnd as (_ & _ & Hnd).
      apply NoDup_cons in Hnd as [Hnin _]. apply Hnin. left. }
    assert (Hl1 : forall y, y ∈ l1 -> y <> p).
    { intros y Hy ->. apply NoDup_app in Hnd as (_ & Hnin & _).
      apply (Hnin p Hy). left. }
    apply Z.eqb_neq in Hne. rewrite Hne.
    set (s0 := record_call (Call_sbrk 0)
                 (record_call (Call_free (a + sizeof_header dm)) s)).
    rewrite (unlink_tail_from_chain l1 (S (base.size (hdrs s))) s0 (head s)
               p a hp Hc Hnd Htail Hhp ltac:(lia)).
    subst s0.
    run. fields. unfold load. rewrite lookup_insert_ne by exact Hpa.
    rewrite Hh. run. rewrite Hz.
    rewrite sbrk_shrink by (fields; unfold z; lia).
    eexists. split; [first [exact Htail | reflexivity]|].
    split; [reflexivity|]. fields.
    split; [reflexivity|]. apply Z.eqb_neq in Hne.
    split; [intros; contradiction|].
    split; [intros _; exists p, hp; auto|].
    rewrite removelast_last. apply wf_unfold. fields.
    apply laid_out_app in Hlay as (e & Hlay1 & Hlay2).
    assert (Hlay' : laid_out (sizeof_header dm) (half_modulus dm) (hdrs s) x
                      (l1 ++ [p]) a = true).
    { apply laid_out_app. exists e. split; [exact Hlay1|].
      apply laid_out_cons in Hlay2 as (<- & hp' & Hhp' & H1 & H2 & Hlay2).
      apply laid_out_cons in Hlay2 as (Ea & _).
      apply laid_out_cons. split; [reflexivity|]. exists hp'.
      repeat split; auto. simpl. apply Z.eqb_eq. congruence. }
    replace (brk s - z) with a by (unfold z; lia).
    split.
    { apply pathb_app. exists p. split.
      - eapply pathb_ext; [|exact Hc1]. intros y Hy.
        rewrite lookup_insert_ne; [reflexivity|]. intros ->. eapply Hl1; eauto.
      - apply pathb_cons. repeat split; auto.
        exists (set_next NULL hp). rewrite lookup_insert_eq. auto. }
    split; [symmetry; apply last_last|].
    split; [lia|]. split; [lia|]. split; [exact Hm|].
    destruct (l1 ++ [p]) as [|y r] eqn:E2; [destruct l1; discriminate|].
    pose proof Hlay' as Hy. apply laid_out_cons in Hy as (-> & _).
    split; [exact Hx|]. eapply laid_out_ext; [|exact Hlay'].
    intros y Hy. destruct (decide (y = p)) as [->|Hyp].
    + rewrite lookup_insert_eq, Hhp. reflexivity.
    + rewrite lookup_insert_ne by auto. reflexivity.
Qed.

(** C1: [free] of a non-null address whose header is on the list and
    whose block ends at the break lowers the break by the size of the
    header plus the recorded size, and takes the block off the list.
    When the block is both [head] and [tail] the list becomes empty;
    otherwise the header whose [next] is the released block gets [NULL]
    as [next] and becomes [tail], and no other header changes. *)
Theorem free_heap_terminal (dm : data_model) (s : state) (l : list Z)
  (block : Z) (h : header) :
  wf dm s l ->
  0 <= block < modulus dm ->
  block <> NULL ->
  wrap dm (block - sizeof_header dm) ∈ l ->
  hdrs s !! wrap dm (block - sizeof_header dm) = Some h ->
  wrap dm (block + h_size h) = brk s ->
  let a := wrap dm (block - sizeof_header dm) in
  exists s',
    free dm block s = Ok s' /\
    brk s' = brk s - (sizeof_header dm + h_size h) /\
    (head s = a /\ tail s = a ->
     head s' = NULL /\ tail s' = NULL /\ hdrs s' = hdrs s) /\
    (~ (head s = a /\ tail s = a) ->
     exists p hp,
       hdrs s !! p = Some hp /\ h_next hp = a /\
       hdrs s' = <[p := set_next NULL hp]> (hdrs s) /\
       tail s' = p /\ head s' = head s) /\
    wf dm s' (removelast l).
Proof.
  intros Hwf Hrange Hnn Ha Hh Hterm a. fold a in Ha, Hh.
  pose proof (sizeof_header_pos dm) as Hhs.
  destruct (wf_block _ _ _ _ Hwf Ha) as (h' & Hh' & Ha0 & Ha1 & _ & Ha2 & Ha3).
  rewrite Hh in Hh'. injection Hh' as <-.
  (* the address is the one of the header plus the header size *)
  assert (Hblock : block = a + sizeof_header dm).
  { destruct (Z.lt_ge_cases block (sizeof_header dm)) as [Hlow|Hhigh].
    - exfalso. assert (E : a = block - sizeof_header dm + modulus dm).
      { unfold a, wrap. pose proof (modulus_pos dm).
        rewrite <- (Z.mod_add _ 1) by lia. rewrite Z.mod_small by lia. lia. }
      lia.
    - unfold a. rewrite wrap_small by lia. lia. }
  rewrite Hblock in Hterm |- *.
  destruct (free_terminal_run dm s l a h Hwf Ha Hh Hterm)
    as (s' & Htail & Hfree & Hbrk & Hone & Hmore & Hwf').
  exists s'. split; [exact Hfree|]. split; [exact Hbrk|].
  split; [|split; [|exact Hwf']].
  - intros [Hd Ht]. apply Hone. congruence.
  - intros Hnot. apply Hmore. intros E. apply Hnot. split; congruence.
Qed.

(** C9: releasing a block that does not end at the break leaves a state
    in which the header of the block has [is_free] true and the size and
    the link it had before; every other header, the payload bytes,
    [head], [tail], the break and its limit are as they were, and the
    only call made is [sbrk(0)], which asks for the break. *)
Theorem free_not_terminal (dm : data_model) (s : state) (block : Z) (h : header) :
  block <> NULL ->
  hdrs s !! wrap dm (block - sizeof_header dm) = Some h ->
  wrap dm (block + h_size h) <> brk s ->
  exists s',
    free dm block s = Ok s' /\
    hdrs s' !! wrap dm (block - sizeof_header dm) =
      Some {| h_size := h_size h; h_is_free := true; h_next := h_next h |} /\
    (forall x, x <> wrap dm (block - sizeof_header dm) ->
       hdrs s' !! x = hdrs s !! x) /\
    bytes s' = bytes s /\ head s' = head s /\ tail s' = tail s /\
    brk s' = brk s /\ limit s' = limit s /\
    trace s' = Call_sbrk 0 :: Call_free block :: trace s.
Proof.
  intros Hb Hh Hne. eexists. split.
  { unfold free. apply Z.eqb_neq in Hb. rewrite Hb.
    unfold sbrk. rewrite Z.eqb_refl. fields.
    unfold load. rewrite Hh. run.
    apply Z.eqb_neq in Hne. rewrite Hne. reflexivity. }
  fields. split; [rewrite lookup_insert_eq; reflexivity|].
  split; [intros x Hx; apply lookup_insert_ne; congruence|].
  repeat split.
Qed.

(** ** [calloc] *)

Lemma mul_overflow_detected dm num nsize :
  0 < num < modulus dm -> 0 < nsize < modulus dm ->
  (modulus dm <= num * nsize <-> nsize <> wrap dm (num * nsize) / num).
Proof.
  intros Hn Hs. split.
  - intros Hov E.
    assert (Hr : wrap dm (num * nsize) <= num * nsize - modulus dm).
    { unfold wrap.
      pose proof (Z.mod_pos_bound (num * nsize - modulus dm) (modulus dm) ltac:(lia)).
      replace (num * nsize) with ((num * nsize - modulus dm) + 1 * modulus dm) at 1 by lia.
      rewrite Z.mod_add by lia.
      apply Z.mod_le; lia. }
    assert (Hq : wrap dm (num * nsize) / num < nsize).
    { apply Z.div_lt_upper_bound; lia. }
    lia.
  - intros Hne. destruct (Z.lt_ge_cases (num * nsize) (modulus dm)) as [Hlt|]; [|lia].
    exfalso. apply Hne. rewrite wrap_small by nia.
    rewrite Z.mul_comm. symmetry. apply Z.div_mul. lia.
Qed.

(** C4: when the product of two nonzero arguments does not fit in
    [size_t], which is what the division test of the code detects,
    [calloc] returns [NULL] and leaves the state as it was: neither
    [malloc] nor [sbrk] is called. *)
Theorem calloc_overflow (dm : data_model) (s : state) (num nsize : Z) :
  0 < num < modulus dm ->
  0 < nsize < modulus dm ->
  (modulus dm <= num * nsize <-> nsize <> wrap dm (num * nsize) / num) /\
  (nsize <> wrap dm (num * nsize) / num -> calloc dm num nsize s = Ok (NULL, s)).
Proof.
  intros Hn Hs. split; [apply mul_overflow_detected; assumption|].
  intros Hne. unfold calloc.
  replace (num =? 0) with false by (symmetry; apply Z.eqb_neq; lia).
  replace (nsize =? 0) with false by (symmetry; apply Z.eqb_neq; lia).
  run. apply Z.eqb_neq in Hne. rewrite Hne. reflexivity.
Qed.

(** ** [realloc] *)

(** C6: with a null address or a zero size, [realloc] is [malloc] of the
    size: same result, same state; with a zero size it returns [NULL]. *)
Theorem realloc_null_or_zero (dm : data_model) (s : state) (block size : Z) :
  block = NULL \/ size = 0 ->
  realloc dm block size s = malloc dm size s /\
  (size = 0 ->
   realloc dm block size s = Ok (NULL, record_call (Call_malloc 0) s)).
Proof.
  intros H.
  assert (E : realloc dm block size s = malloc dm size s).
  { unfold realloc. destruct H as [-> | ->].
    - reflexivity.
    - rewrite orb_true_r. reflexivity. }
  split; [exact E|]. intros ->. rewrite E. reflexivity.
Qed.

(** C7: when the recorded size of the block covers the new size,
    [realloc] returns the address it was given and the state is the one
    before the call: no header, no byte and no global changes, and no
    call to [malloc], [memcpy], [free] or [sbrk] is made. *)
Theorem realloc_fits_in_place (dm : data_model) (s : state) (block size : Z)
  (h : header) :
  block <> NULL ->
  size <> 0 ->
  hdrs s !! wrap dm (block - sizeof_header dm) = Some h ->
  size <= h_size h ->
  realloc dm block size s = Ok (block, s).
Proof.
  intros Hb Hs Hh Hle. unfold realloc.
  apply Z.eqb_neq in Hb, Hs. rewrite Hb, Hs. run.
  unfold load. rewrite Hh. run.
  apply Z.leb_le in Hle. rewrite Hle. reflexivity.
Qed.

(** C8: when the block is too small and the inner [malloc] fails,
    [realloc] returns [NULL] and the old block is not released: [free]
    is not called, and the headers, the payload bytes, the list and the
    break are those before the call. *)
Theorem realloc_failure_keeps_block (dm : data_model) (s : state) (l : list Z)
  (a : Z) (h : header) (size : Z) (s1 : state) :
  wf dm s l ->
  a ∈ l ->
  hdrs s !! a = Some h ->
  h_size h < size ->
  malloc dm size s = Ok (NULL, s1) ->
  realloc dm (a + sizeof_header dm) size s = Ok (NULL, s1) /\
  hdrs s1 !! a = Some h /\
  hdrs s1 = hdrs s /\ bytes s1 = bytes s /\
  head s1 = head s /\ tail s1 = tail s /\ brk s1 = brk s /\
  trace s1 =
    Call_sbrk (signed dm (wrap dm (sizeof_header dm + size))) ::
    Call_malloc size :: trace s.
Proof.
  intros Hwf Ha Hh Hlt Hm. pose proof (sizeof_header_pos dm) as Hhs.
  destruct (wf_block _ _ _ _ Hwf Ha) as (h' & Hh' & Ha0 & Ha1 & _ & Ha2 & Ha3).
  rewrite Hh in Hh'. injection Hh' as <-.
  assert (Hsz : size <> 0) by lia.
  split.
  - unfold realloc.
    replace (a + sizeof_header dm =? NULL) with false
      by (symmetry; apply Z.eqb_neq; unfold NULL; lia).
    apply Z.eqb_neq in Hsz. rewrite Hsz. run.
    replace (a + sizeof_header dm - sizeof_header dm) with a by lia.
    rewrite (wrap_small dm a) by lia.
    rewrite (load_Some _ _ _ Hh). run.
    replace (size <=? h_size h) with false by (symmetry; apply Z.leb_gt; lia).
    rewrite Hm. reflexivity.
  - destruct (malloc_cases dm s l size Hwf Hsz) as [E|(r0 & s0 & E & Hcases)];
      [congruence|].
    rewrite E in Hm. injection Hm as -> ->.
    destruct Hcases as [[_ ->] | [(b & hb & Hin & _ & _ & _ & Hr & _) | (_ & Hr & _)]].
    + fields. auto 10.
    + destruct (wf_block _ _ _ _ Hwf Hin) as (? & _ & Hb0 & _).
      unfold NULL in Hr. lia.
    + apply wf_unfold in Hwf as (_ & _ & Hb & _). unfold NULL in Hr. lia.
Qed.

(** ** Zero-filling *)

Lemma memset_lookup dm dst c n s i :
  0 <= i < n -> bytes (memset dm dst c n s) !! wrap dm (dst + i) = Some c.
Proof.
  intros Hi. unfold memset. fields.
  assert (Hin : i ∈ seqZ 0 n) by (apply elem_of_seqZ; lia).
  induction (seqZ 0 n) as [|x xs IH]; [inversion Hin|].
  cbn [fold_right].
  destruct (decide (wrap dm (dst + x) = wrap dm (dst + i))) as [-> | Hne].
  - apply lookup_insert_eq.
  - rewrite lookup_insert_ne by exact Hne. apply IH.
    apply elem_of_cons in Hin as [-> | Hin]; [contradiction|exact Hin].
Qed.

Lemma memset_other dm dst c n s (k : Z) :
  (forall i, 0 <= i < n -> wrap dm (dst + i) <> k) ->
  bytes (memset dm dst c n s) !! k = bytes s !! k.
Proof.
  intros Hk. unfold memset. fields.
  assert (Hin : forall i, i ∈ seqZ 0 n -> wrap dm (dst + i) <> k).
  { intros i Hi. apply Hk. apply elem_of_seqZ in Hi. lia. }
  induction (seqZ 0 n) as [|x xs IH]; [reflexivity|].
  cbn [fold_right]. rewrite lookup_insert_ne by (apply Hin; left).
  apply IH. intros i Hi. apply Hin. right. exact Hi.
Qed.

(** [malloc] writes no payload byte. *)
Lemma malloc_bytes dm size s r s' :
  malloc dm size s = Ok (r, s') -> bytes s' = bytes s.
Proof.
  unfold malloc. cbv zeta. destruct (size =? 0).
  { intros Heq. simplify_eq. reflexivity. }
  destruct (get_free_block size (record_call (Call_malloc size) s)) as [a| |];
    run; try discriminate.
  destruct (a =? NULL); run.
  - destruct (sbrk dm (signed dm (wrap dm (sizeof_header dm + size)))
                (record_call (Call_malloc size) s)) as [block s1] eqn:Hs.
    apply sbrk_cases in Hs as [[-> ->] | (-> & _ & Hb & _)].
    + rewrite Z.eqb_refl. intros Heq. simplify_eq. reflexivity.
    + fields in Hb. fields.
      destruct (brk s =? sbrk_failed dm); [intros Heq; simplify_eq; exact Hb|].
      destruct (brk s1 <? brk s + sizeof_header dm); [discriminate|].
      destruct (head s1 =? NULL); fields.
      all: destruct (tail s1 =? NULL); run; fields;
        [intros Heq; simplify_eq; exact Hb|].
      all: unfold load;
        destruct (<[brk s := {| h_size := size; h_is_free := false;
                                h_next := NULL |}]> (hdrs s1) !! tail s1);
        run; [|discriminate]; intros Heq; simplify_eq; exact Hb.
  - unfold load. fields. destruct (hdrs s !! a); run; [|discriminate].
    intros Heq. simplify_eq. reflexivity.
Qed.

(** C5, amended: after a successful [calloc] with nonzero arguments whose
    product fits in [size_t], each of the first [num * nsize] bytes of the
    returned region, the requested total, reads as zero. *)
Theorem calloc_zero_fills_request (dm : data_model) (s : state)
  (num nsize block : Z) (s' : state) :
  0 < num -> 0 < nsize -> num * nsize < modulus dm ->
  calloc dm num nsize s = Ok (block, s') ->
  block <> NULL ->
  forall i, 0 <= i < num * nsize ->
    bytes s' !! wrap dm (block + i) = Some 0.
Proof.
  intros Hn Hs Hfit H Hb.
  assert (E : calloc dm num nsize s =
              '(b, s1) ← malloc dm (num * nsize) s;
              if b =? NULL then Ok (NULL, s1)
              else Ok (b, memset dm b 0 (num * nsize) s1)).
  { unfold calloc.
    replace (num =? 0) with false by (symmetry; apply Z.eqb_neq; lia).
    replace (nsize =? 0) with false by (symmetry; apply Z.eqb_neq; lia).
    run. rewrite wrap_small by nia.
    replace (nsize =? num * nsize / num) with true; [reflexivity|].
    symmetry. apply Z.eqb_eq. rewrite Z.mul_comm. symmetry.
    apply Z.div_mul. lia. }
  rewrite E in H. clear E.
  destruct (malloc dm (num * nsize) s) as [[b s1]| |] eqn:Hm; try discriminate.
  run in H. destruct (b =? NULL).
  - injection H as <- _. contradiction.
  - injection H as <- <-. intros i Hi. apply memset_lookup. exact Hi.
Qed.

(** ** The invariant is kept *)

Lemma wf_initial dm brk0 lim :
  0 < brk0 <= lim -> lim + sizeof_header dm < modulus dm ->
  wf dm (initial brk0 lim) [].
Proof.
  intros Hb Hl. apply wf_unfold. unfold initial. fields.
  repeat split; auto; lia.
Qed.

(** The invariant reads the headers, the two globals, the break and its
    limit, and neither the bytes nor the record of calls. *)
Lemma wf_same_fields dm s s' l :
  hdrs s' = hdrs s -> head s' = head s -> tail s' = tail s ->
  brk s' = brk s -> limit s' = limit s ->
  wf dm s l -> wf dm s' l.
Proof.
  intros H1 H2 H3 H4 H5. unfold wf, wfb. rewrite H1, H2, H3, H4, H5. auto.
Qed.

Lemma wf_set_is_free dm s l a h v :
  wf dm s l -> hdrs s !! a = Some h ->
  wf dm (set_hdrs (<[a := set_is_free v h]> (hdrs s)) s) l.
Proof.
  intros Hwf Hh. apply wf_unfold in Hwf as (Hc & Ht & Hb & Hl & Hm & Hlay).
  apply wf_unfold. fields.
  assert (Hsame : forall x : Z,
            h_next <$> (<[a := set_is_free v h]> (hdrs s) !! x) = h_next <$> (hdrs s !! x) /\
            h_size <$> (<[a := set_is_free v h]> (hdrs s) !! x) = h_size <$> (hdrs s !! x)).
  { intros x. destruct (decide (x = a)) as [->|Hne].
    - rewrite lookup_insert_eq, Hh. auto.
    - rewrite lookup_insert_ne by auto. auto. }
  split; [eapply pathb_ext; [|exact Hc]; intros x _; apply Hsame|].
  repeat split; auto.
  destruct l as [|x l]; [exact I|]. destruct Hlay as [Hx Hlay].
  split; [exact Hx|]. eapply laid_out_ext; [|exact Hlay].
  intros y _. apply Hsame.
Qed.

(** [malloc] returns on a well-formed heap and leaves it well-formed, for
    every request that together with a header is smaller than half the
    address space: the list is as before, or longer by the block at the
    former break. *)
Theorem malloc_preserves_wf dm s l size :
  wf dm s l -> 0 < size -> sizeof_header dm + size < half_modulus dm ->
  exists r s' l',
    malloc dm size s = Ok (r, s') /\ wf dm s' l' /\
    (l' = l \/ l' = l ++ [brk s]).
Proof.
  intros Hwf Hsz Hsane. pose proof (sizeof_header_pos dm) as Hhs.
  pose proof (half_modulus_double dm) as Hd.
  pose proof Hwf as Hwf'.
  apply wf_unfold in Hwf' as (Hc & Ht & Hb & Hl & Hm & Hlay).
  unfold malloc.
  replace (size =? 0) with false by (symmetry; apply Z.eqb_neq; lia).
  change (get_free_block size (record_call (Call_malloc size) s))
    with (get_free_block size s).
  pose proof (get_free_block_chain s size l Hc) as Hg.
  destruct (find_first_fit_spec (hdrs s) size (head s) l Hc) as (Hnull & Hfound).
  set (a := find_first_fit (hdrs s) size l) in *.
  rewrite Hg. run.
  destruct (Z.eqb_spec a NULL) as [Hz|Hnz]; run.
  - (* the heap grows, or cannot *)
    rewrite (wrap_small dm (sizeof_header dm + size)) by lia.
    rewrite signed_small by lia.
    set (inc := sizeof_header dm + size).
    unfold sbrk. fields.
    replace (inc =? 0) with false by (symmetry; apply Z.eqb_neq; unfold inc; lia).
    replace (brk s + inc <? 0) with false
      by (symmetry; apply Z.ltb_ge; unfold inc; lia).
    run. destruct (Z.ltb_spec (limit s) (brk s + inc)) as [Hfull|Hroom].
    + rewrite Z.eqb_refl. eexists _, _, l. split; [reflexivity|].
      split; [|left; reflexivity].
      eapply wf_same_fields; [..|exact Hwf]; reflexivity.
    + replace (brk s =? sbrk_failed dm) with false
        by (symmetry; apply Z.eqb_neq, sbrk_failed_above; lia).
      fields.
      replace (brk s + inc <? brk s + sizeof_header dm) with false
        by (symmetry; apply Z.ltb_ge; unfold inc; lia).
      rewrite (wrap_small dm (brk s + sizeof_header dm)) by lia.
      set (new := {| h_size := size; h_is_free := false; h_next := NULL |}).
      induction l as [|t l1 _] using rev_ind.
      * (* the first block *)
        simpl in Hc, Ht. apply Z.eqb_eq in Hc. rewrite Hc.
        rewrite Z.eqb_refl. fields. rewrite Ht, Z.eqb_refl. run. fields.
        eexists _, _, [brk s]. split; [reflexivity|].
        split; [|right; reflexivity].
        apply wf_unfold. fields.
        split.
        { apply pathb_cons. repeat split; [unfold NULL; lia|].
          exists new. rewrite lookup_insert_eq. auto. }
        repeat split; auto; try (unfold inc; lia).
        apply laid_out_cons. split; [reflexivity|]. exists new.
        rewrite lookup_insert_eq. repeat split; auto.
        simpl. apply Z.eqb_eq. unfold inc. lia.
      * (* one more block after [t] *)
        rewrite last_last in Ht.
        assert (Hin : t ∈ l1 ++ [t]) by (apply elem_of_app; right; left).
        destruct (wf_block _ _ _ _ Hwf Hin) as (ht & Hht & Ht0 & Ht1 & _ & Ht2 & _).
        pose proof (chainb_NoDup _ _ _ Hc) as Hnd.
        assert (Hhd : head s <> NULL).
        { destruct l1 as [|y l1]; simpl app in Hc;
            apply pathb_cons in Hc as (_ & Hn & _); exact Hn. }
        apply Z.eqb_neq in Hhd. rewrite Hhd. fields. rewrite Ht.
        replace (t =? NULL) with false
          by (symmetry; apply Z.eqb_neq; unfold NULL; lia).
        run. unfold load. rewrite lookup_insert_ne by lia. rewrite Hht.
        run. fields.
        eexists _, _, ((l1 ++ [t]) ++ [brk s]). split; [reflexivity|].
        split; [|right; reflexivity].
        assert (Hold : forall y, y ∈ l1 ++ [t] ->
                  (y <> t ->
                   <[t := set_next (brk s) ht]> (<[brk s := new]> (hdrs s)) !! y
                   = hdrs s !! y) /\
                  h_size <$> (<[t := set_next (brk s) ht]>
                                (<[brk s := new]> (hdrs s)) !! y)
                  = h_size <$> (hdrs s !! y)).
        { intros y Hy.
          destruct (wf_block _ _ _ _ Hwf Hy) as (hy & Hhy & Hy0 & Hy1 & _ & Hy2 & _).
          split.
          - intros Hne. rewrite lookup_insert_ne by auto.
            rewrite lookup_insert_ne by lia. reflexivity.
          - destruct (decide (y = t)) as [->|Hne].
            + rewrite lookup_insert_eq, Hht. reflexivity.
            + rewrite lookup_insert_ne by auto.
              rewrite lookup_insert_ne by lia. reflexivity. }
        apply wf_unfold. fields.
        split.
        { unfold chainb in Hc |- *. apply pathb_app in Hc as (c & Hc1 & Hc2).
          apply pathb_cons in Hc2 as (<- & Htn & _).
          apply pathb_app. exists (brk s). split.
          - apply pathb_app. exists t. split.
            + eapply pathb_ext; [|exact Hc1]. intros y Hy.
              assert (Hyt : y <> t).
              { intros ->. apply NoDup_app in Hnd as (_ & Hnin & _).
                apply (Hnin t Hy). left. }
              destruct (Hold y) as [Hsame _];
                [apply elem_of_app; left; exact Hy|].
              rewrite (Hsame Hyt). reflexivity.
            + apply pathb_cons. repeat split; auto.
              exists (set_next (brk s) ht). rewrite lookup_insert_eq.
              split; [reflexivity|]. simpl. apply Z.eqb_refl.
          - apply pathb_cons. repeat split; [unfold NULL; lia|].
            exists new. rewrite lookup_insert_ne by lia.
            rewrite lookup_insert_eq. auto. }
        split; [rewrite last_last; reflexivity|].
        split; [unfold inc; lia|]. split; [lia|]. split; [exact Hm|].
        destruct (l1 ++ [t]) as [|x l0] eqn:El; [destruct l1; discriminate|].
        destruct Hlay as [Hx Hlay]. rewrite <- app_comm_cons.
        split; [exact Hx|]. rewrite app_comm_cons. apply laid_out_app.
        exists (brk s). split.
        { eapply laid_out_ext; [|exact Hlay]. intros y Hy. apply Hold, Hy. }
        apply laid_out_cons. split; [reflexivity|]. exists new.
        rewrite lookup_insert_ne by lia. rewrite lookup_insert_eq.
        repeat split; auto. simpl. apply Z.eqb_eq. unfold inc. lia.
  - (* a free block is reused *)
    destruct (Hfound Hnz) as (l1 & l2 & El & Hfit & _).
    assert (Hin : a ∈ l) by (rewrite El; apply elem_of_app; right; left).
    destruct (wf_block _ _ _ _ Hwf Hin) as (h & Hh & _).
    fields. rewrite (load_Some _ _ _ Hh). run.
    eexists _, _, l. split; [reflexivity|]. split; [|left; reflexivity].
    eapply wf_same_fields; [| | | | |apply (wf_set_is_free dm s l a h false Hwf Hh)];
      reflexivity.
Qed.

(** [free] of a block of the list returns and leaves the heap
    well-formed: the list is as before, or shorter by its last block. *)
Theorem free_preserves_wf dm s l a :
  wf dm s l -> a ∈ l ->
  exists s' l',
    free dm (a + sizeof_header dm) s = Ok s' /\ wf dm s' l' /\
    (l' = l \/ l' = removelast l).
Proof.
  intros Hwf Ha. pose proof (sizeof_header_pos dm) as Hhs.
  destruct (wf_block _ _ _ _ Hwf Ha) as (h & Hh & Ha0 & Ha1 & _ & Ha2 & Ha3).
  destruct (Z.eq_dec (wrap dm (a + sizeof_header dm + h_size h)) (brk s))
    as [Hterm|Hmid].
  - destruct (free_terminal_run dm s l a h Hwf Ha Hh Hterm)
      as (s' & _ & Hfree & _ & _ & _ & Hwf').
    exists s', (removelast l). auto.
  - unfold free.
    replace (a + sizeof_header dm =? NULL) with false
      by (symmetry; apply Z.eqb_neq; unfold NULL; lia).
    rewrite sbrk_zero. run. fields.
    replace (a + sizeof_header dm - sizeof_header dm) with a by lia.
    rewrite (wrap_small dm a) by lia.
    rewrite (load_Some _ _ _ Hh). run.
    apply Z.eqb_neq in Hmid. rewrite Hmid.
    eexists _, l. split; [reflexivity|]. split; [|left; reflexivity].
    eapply wf_same_fields; [| | | | |apply (wf_set_is_free dm s l a h true Hwf Hh)];
      reflexivity.
Qed.

(** [calloc] and [realloc] call [malloc] and [free]; [memset] and
    [memcpy] write payload bytes only. *)
Theorem calloc_preserves_wf dm s l num nsize :
  wf dm s l -> 0 <= num -> 0 <= nsize ->
  sizeof_header dm + num * nsize < half_modulus dm ->
  exists r s' l',
    calloc dm num nsize s = Ok (r, s') /\ wf dm s' l' /\
    (l' = l \/ l' = l ++ [brk s]).
Proof.
  intros Hwf Hn Hs Hsane. pose proof (sizeof_header_pos dm) as Hhs.
  pose proof (half_modulus_double dm) as Hd.
  unfold calloc.
  destruct (Z.eqb_spec num 0) as [->|Hn0]; run.
  { exists NULL, s, l. auto. }
  destruct (Z.eqb_spec nsize 0) as [->|Hs0]; run.
  { exists NULL, s, l. auto. }
  rewrite wrap_small by nia.
  replace (nsize =? num * nsize / num) with true
    by (symmetry; apply Z.eqb_eq; rewrite Z.mul_comm; symmetry;
        apply Z.div_mul; lia).
  run.
  destruct (malloc_preserves_wf dm s l (num * nsize) Hwf ltac:(nia) Hsane)
    as (r & s1 & l1 & Hm & Hwf1 & Hl1).
  rewrite Hm. run. destruct (r =? NULL).
  - exists NULL, s1, l1. auto.
  - eexists _, _, l1. split; [reflexivity|]. split; [|exact Hl1].
    eapply wf_same_fields; [..|exact Hwf1]; reflexivity.
Qed.

Theorem realloc_preserves_wf dm s l a size :
  wf dm s l -> a ∈ l -> 0 <= size ->
  sizeof_header dm + size < half_modulus dm ->
  exists r s' l', realloc dm (a + sizeof_header dm) size s = Ok (r, s') /\
                  wf dm s' l'.
Proof.
  intros Hwf Ha Hsz Hsane. pose proof (sizeof_header_pos dm) as Hhs.
  destruct (wf_block _ _ _ _ Hwf Ha) as (h & Hh & Ha0 & Ha1 & _ & Ha2 & Ha3).
  unfold realloc.
  replace (a + sizeof_header dm =? NULL) with false
    by (symmetry; apply Z.eqb_neq; unfold NULL; lia).
  destruct (Z.eqb_spec size 0) as [->|Hs0]; run.
  { rewrite malloc_zero. eexists _, _, l. split; [reflexivity|].
    eapply wf_same_fields; [..|exact Hwf]; reflexivity. }
  replace (a + sizeof_header dm - sizeof_header dm) with a by lia.
  rewrite (wrap_small dm a) by lia.
  rewrite (load_Some _ _ _ Hh). run.
  destruct (size <=? h_size h).
  { exists (a + sizeof_header dm), s, l. auto. }
  destruct (malloc_preserves_wf dm s l size Hwf ltac:(lia) Hsane)
    as (r & s1 & l1 & Hm & Hwf1 & Hl1).
  rewrite Hm. run. destruct (r =? NULL); run.
  { exists r, s1, l1. auto. }
  assert (Ha1' : a ∈ l1).
  { destruct Hl1 as [->| ->]; [exact Ha|]. apply elem_of_app. left. exact Ha. }
  destruct (wf_block _ _ _ _ Hwf1 Ha1') as (h1 & Hh1 & _).
  rewrite (load_Some _ _ _ Hh1). run.
  set (s2 := memcpy dm r (a + sizeof_header dm) (h_size h1) s1).
  assert (Hwf2 : wf dm s2 l1)
    by (eapply wf_same_fields; [..|exact Hwf1]; reflexivity).
  destruct (free_preserves_wf dm s2 l1 a Hwf2 Ha1') as (s3 & l3 & Hf & Hwf3 & _).
  rewrite Hf. run. exists r, s3, l3. auto.
Qed.

(** ** The small heaps are heaps of the model *)

Example run_two_blocks_eq : run_two_blocks = Ok two_blocks.
Proof. vm_compute. reflexivity. Qed.

Example run_first_freed_eq : run_first_freed = Ok first_freed.
Proof. vm_compute. reflexivity. Qed.

Example run_full_heap_eq : run_full_heap = Ok full_heap.
Proof. vm_compute. reflexivity. Qed.

Example two_blocks_wf : wf LP64 two_blocks [4096; 4136].
Proof. vm_compute. reflexivity. Qed.

Example first_freed_wf : wf LP64 first_freed [4096; 4136].
Proof. vm_compute. reflexivity. Qed.

Example full_heap_wf : wf LP64 full_heap [4096].
Proof. vm_compute. reflexivity. Qed.

(** ** The theorems at work on the small heaps *)

Lemma free_heap_terminal_witness :
  wf LP64 two_blocks [4096; 4136] /\
  exists s',
    free LP64 4160 two_blocks = Ok s' /\ brk s' = 4136 /\ wf LP64 s' [4096].
Proof.
  split; [vm_compute; reflexivity|].
  destruct (free_heap_terminal LP64 two_blocks [4096; 4136] 4160
              {| h_size := 32; h_is_free := false; h_next := NULL |})
    as (s' & Hfree & Hbrk & _ & _ & Hwf).
  - vm_compute. reflexivity.
  - vm_compute. split; [discriminate|reflexivity].
  - unfold NULL. lia.
  - right. left.
  - vm_compute. reflexivity.
  - vm_compute. reflexivity.
  - exists s'. split; [exact Hfree|]. split; [|exact Hwf].
    rewrite Hbrk. reflexivity.
Defined.

Lemma get_free_block_first_fit_witness :
  chainb (hdrs first_freed) (head first_freed) [4096; 4136] = true /\
  get_free_block 10 first_freed = Ok 4096.
Proof.
  split; [vm_compute; reflexivity|].
  destruct (get_free_block_first_fit first_freed 10 [4096; 4136])
    as (r & Hg & -> & _).
  - vm_compute. reflexivity.
  - exact Hg.
Defined.

Lemma malloc_reuse_keeps_size_witness :
  get_free_block 10 first_freed = Ok 4096 /\
  hdrs first_freed !! 4096 =
    Some {| h_size := 16; h_is_free := true; h_next := 4136 |} /\
  exists s',
    malloc LP64 10 first_freed = Ok (4120, s') /\
    hdrs s' !! 4096 =
      Some {| h_size := 16; h_is_free := false; h_next := 4136 |} /\
    hdrs s' !! 4136 = hdrs first_freed !! 4136.
Proof.
  split; [vm_compute; reflexivity|].
  split; [vm_compute; reflexivity|].
  destruct (malloc_reuse_keeps_size LP64 first_freed 10 4096)
    as (h & s' & Hh & _ & _ & Hm & Hnew & Hother & _).
  - lia.
  - vm_compute. reflexivity.
  - unfold NULL. lia.
  - assert (E : h = {| h_size := 16; h_is_free := true; h_next := 4136 |}).
    { vm_compute in Hh. injection Hh as <-. reflexivity. }
    subst h. exists s'. split; [exact Hm|]. split; [exact Hnew|].
    apply Hother. lia.
Defined.

Lemma calloc_overflow_witness :
  0 < 2 ^ 63 < modulus LP64 /\ 0 < 2 < modulus LP64 /\
  modulus LP64 <= 2 ^ 63 * 2 /\
  calloc LP64 (2 ^ 63) 2 two_blocks = Ok (NULL, two_blocks).
Proof.
  assert (H1 : 0 < 2 ^ 63 < modulus LP64) by (vm_compute; split; reflexivity).
  assert (H2 : 0 < 2 < modulus LP64) by (vm_compute; split; reflexivity).
  assert (H3 : modulus LP64 <= 2 ^ 63 * 2) by (vm_compute; discriminate).
  split; [exact H1|]. split; [exact H2|]. split; [exact H3|].
  destruct (calloc_overflow LP64 two_blocks (2 ^ 63) 2 H1 H2) as [Hiff Hc].
  apply Hc, Hiff, H3.
Defined.

Lemma calloc_zero_fills_request_witness :
  calloc LP64 2 4 first_freed =
    Ok (4120,
        memset LP64 4120 0 8
          (set_hdrs
             (<[4096 := {| h_size := 16; h_is_free := false; h_next := 4136 |}]>
                (hdrs first_freed))
             (record_call (Call_malloc 8) first_freed))) /\
  bytes
    (memset LP64 4120 0 8
       (set_hdrs
          (<[4096 := {| h_size := 16; h_is_free := false; h_next := 4136 |}]>
             (hdrs first_freed))
          (record_call (Call_malloc 8) first_freed)))
    !! wrap LP64 (4120 + 7) = Some 0.
Proof.
  assert (H : calloc LP64 2 4 first_freed =
    Ok (4120,
        memset LP64 4120 0 8
          (set_hdrs
             (<[4096 := {| h_size := 16; h_is_free := false; h_next := 4136 |}]>
                (hdrs first_freed))
             (record_call (Call_malloc 8) first_freed))))
    by (vm_compute; reflexivity).
  split; [exact H|].
  apply (calloc_zero_fills_request LP64 first_freed 2 4 4120 _
           ltac:(lia) ltac:(lia) ltac:(vm_compute; reflexivity) H
           ltac:(unfold NULL; lia) 7).
  lia.
Defined.

Lemma realloc_null_or_zero_witness :
  realloc LP64 NULL 8 two_blocks = malloc LP64 8 two_blocks /\
  realloc LP64 4120 0 two_blocks =
    Ok (NULL, record_call (Call_malloc 0) two_blocks).
Proof.
  split.
  - exact (proj1 (realloc_null_or_zero LP64 two_blocks NULL 8
                    (or_introl eq_refl))).
  - exact (proj2 (realloc_null_or_zero LP64 two_blocks 4120 0
                    (or_intror eq_refl)) eq_refl).
Defined.

Lemma realloc_fits_in_place_witness :
  hdrs two_blocks !! wrap LP64 (4120 - sizeof_header LP64) =
    Some {| h_size := 16; h_is_free := false; h_next := 4136 |} /\
  realloc LP64 4120 10 two_blocks = Ok (4120, two_blocks).
Proof.
  split; [vm_compute; reflexivity|].
  apply (realloc_fits_in_place LP64 two_blocks 4120 10
           {| h_size := 16; h_is_free := false; h_next := 4136 |}).
  - unfold NULL. lia.
  - lia.
  - vm_compute. reflexivity.
  - simpl. lia.
Defined.

Lemma realloc_failure_keeps_block_witness :
  wf LP64 full_heap [4096] /\
  malloc LP64 100 full_heap =
    Ok (NULL, record_call (Call_sbrk 124)
                (record_call (Call_malloc 100) full_heap)) /\
  realloc LP64 4120 100 full_heap =
    Ok (NULL, record_call (Call_sbrk 124)
                (record_call (Call_malloc 100) full_heap)).
Proof.
  assert (Hm : malloc LP64 100 full_heap =
                 Ok (NULL, record_call (Call_sbrk 124)
                             (record_call (Call_malloc 100) full_heap)))
    by (vm_compute; reflexivity).
  split; [vm_compute; reflexivity|]. split; [exact Hm|].
  apply (realloc_failure_keeps_block LP64 full_heap [4096] 4096
           {| h_size := 16; h_is_free := false; h_next := NULL |} 100 _).
  - vm_compute. reflexivity.
  - left.
  - vm_compute. reflexivity.
  - simpl. lia.
  - exact Hm.
Defined.

Lemma free_not_terminal_witness :
  hdrs two_blocks !! 4096 =
    Some {| h_size := 16; h_is_free := false; h_next := 4136 |} /\
  wrap LP64 (4120 + 16) <> brk two_blocks /\
  exists s',
    free LP64 4120 two_blocks = Ok s' /\
    hdrs s' !! wrap LP64 (4120 - sizeof_header LP64) =
      Some {| h_size := 16; h_is_free := true; h_next := 4136 |} /\
    hdrs s' !! 4136 = hdrs two_blocks !! 4136 /\
    head s' = head two_blocks /\ tail s' = tail two_blocks /\
    brk s' = brk two_blocks.
Proof.
  split; [vm_compute; reflexivity|].
  split; [vm_compute; discriminate|].
  destruct (free_not_terminal LP64 two_blocks 4120
              {| h_size := 16; h_is_free := false; h_next := 4136 |})
    as (s' & Hf & Hnew & Hother & _ & Hd & Ht & Hk & _).
  - unfold NULL. lia.
  - vm_compute. reflexivity.
  - vm_compute. discriminate.
  - exists s'. split; [exact Hf|]. split; [exact Hnew|].
    split; [apply Hother; vm_compute; discriminate|]. auto.
Defined.

Lemma malloc_returns_header_plus_sizeof_witness :
  wf LP64 fresh_heap [] /\
  exists s',
    malloc LP64 16 fresh_heap = Ok (4120, s') /\
    exists a hd,
      hdrs s' !! a = Some hd /\ h_is_free hd = false /\
      4120 = a + sizeof_header LP64 /\
      wrap LP64 (4120 - sizeof_header LP64) = a.
Proof.
  split; [vm_compute; reflexivity|].
  destruct (malloc LP64 16 fresh_heap) as [[r s']| |] eqn:E;
    try (vm_compute in E; discriminate).
  assert (r = 4120) as -> by (vm_compute in E; injection E as <- _; reflexivity).
  exists s'. split; [reflexivity|].
  apply (malloc_returns_header_plus_sizeof LP64 fresh_heap [] 16 4120 s').
  - vm_compute. reflexivity.
  - exact E.
  - unfold NULL. lia.
Defined.

(** ** Where the code and its description part *)

(** C5, as stated: [calloc(2, 4)] reuses the free block of 16 bytes at
    4120 and zeroes the 8 bytes asked for; the ninth byte of the block,
    inside its usable region, still reads 7. *)
Lemma calloc_reuse_leaves_bytes_unzeroed :
  exists s',
    calloc LP64 2 4 first_freed = Ok (4120, s') /\
    h_size <$> (hdrs s' !! (4120 - sizeof_header LP64)) = Some 16 /\
    0 <= 8 < 16 /\
    bytes s' !! (4120 + 8) = Some 7 /\
    bytes s' !! (4120 + 8) <> Some 0.
Proof.
  exists (memset LP64 4120 0 8
            (set_hdrs
               (<[4096 := {| h_size := 16; h_is_free := false; h_next := 4136 |}]>
                  (hdrs first_freed))
               (record_call (Call_malloc 8) first_freed))).
  split; [vm_compute; reflexivity|].
  split; [vm_compute; reflexivity|]. split; [lia|].
  split; [vm_compute; reflexivity|]. vm_compute. discriminate.
Qed.

(** C10: the source pads the header with a 16-byte stub so that the
    memory handed out is aligned to 16 bytes, and on ILP32 the header
    takes 16 bytes.  On LP64 the three fields take 24 bytes, more than
    the stub: the first [malloc] of a heap whose break is at 4096, a
    multiple of 16, writes its header at 4096 and returns 4120, which is
    8 past a multiple of 16, and there is no header at 4120 - 16. *)
Lemma header_is_not_16_bytes_on_LP64 :
  sizeof_header ILP32 = 16 /\
  sizeof_header LP64 = 24 /\
  brk fresh_heap = 4096 /\
  brk fresh_heap mod 16 = 0 /\
  exists r s',
    malloc LP64 16 fresh_heap = Ok (r, s') /\
    r = 4120 /\
    r mod 16 = 8 /\
    is_Some (hdrs s' !! 4096) /\
    r <> 4096 + 16 /\
    hdrs s' !! (r - 16) = None.
Proof.
  split; [reflexivity|]. split; [reflexivity|].
  split; [reflexivity|]. split; [reflexivity|].
  eexists _, _. split; [vm_compute; reflexivity|].
  split; [reflexivity|]. split; [reflexivity|].
  split; [vm_compute; eauto|]. split; [lia|]. vm_compute. reflexivity.
Qed.

(** * More of the allocator *)

(** ** The growth path of [malloc] *)

Lemma sbrk_ok dm inc s :
  inc = 0 \/ 0 <= brk s + inc <= limit s ->
  exists s1,
    sbrk dm inc s = (brk s, s1) /\
    hdrs s1 = hdrs s /\ bytes s1 = bytes s /\ head s1 = head s /\
    tail s1 = tail s /\ limit s1 = limit s /\ brk s1 = brk s + inc /\
    trace s1 = Call_sbrk inc :: trace s.
Proof.
  intros H. unfold sbrk. fields.
  destruct (Z.eqb_spec inc 0) as [->|Hne].
  - eexists. split; [reflexivity|]. fields. repeat split; auto. lia.
  - destruct H as [H|H]; [contradiction|].
    replace (brk s + inc <? 0) with false by (symmetry; apply Z.ltb_ge; lia).
    replace (limit s <? brk s + inc) with false by (symmetry; apply Z.ltb_ge; lia).
    eexists. split; [reflexivity|]. fields. repeat split; auto.
Qed.

(** The run of [malloc] when no block fits and [sbrk] grants the
    increment. *)
Lemma malloc_grow_run dm s l size :
  wf dm s l -> size <> 0 ->
  find_first_fit (hdrs s) size l = NULL ->
  (signed dm (wrap dm (sizeof_header dm + size)) = 0 \/
   0 <= brk s + signed dm (wrap dm (sizeof_header dm + size)) <= limit s) ->
  sizeof_header dm <= signed dm (wrap dm (sizeof_header dm + size)) ->
  exists s',
    malloc dm size s = Ok (brk s + sizeof_header dm, s') /\
    brk s' = brk s + signed dm (wrap dm (sizeof_header dm + size)) /\
    limit s' = limit s /\ bytes s' = bytes s /\
    head s' = (if head s =? NULL then brk s else head s) /\
    tail s' = brk s /\
    hdrs s' =
      (let m := <[brk s := {| h_size := size; h_is_free := false;
                              h_next := NULL |}]> (hdrs s) in
       if tail s =? NULL then m
       else match hdrs s !! tail s with
            | Some ht => <[tail s := set_next (brk s) ht]> m
            | None => m
            end) /\
    trace s' =
      Call_sbrk (signed dm (wrap dm (sizeof_header dm + size))) ::
      Call_malloc size :: trace s.
Proof.
  intros Hwf Hsz Hnone Hroom Hfits. pose proof (sizeof_header_pos dm) as Hhs.
  pose proof Hwf as Hwf'.
  apply wf_unfold in Hwf' as (Hc & Ht & Hb & Hl & Hm & Hlay).
  unfold malloc. apply Z.eqb_neq in Hsz. rewrite Hsz.
  change (get_free_block size (record_call (Call_malloc size) s))
    with (get_free_block size s).
  rewrite (get_free_block_chain s size l Hc), Hnone. run.
  rewrite (Z.eqb_refl NULL). run.
  set (inc := signed dm (wrap dm (sizeof_header dm + size))) in *.
  destruct (sbrk_ok dm inc (record_call (Call_malloc size) s) Hroom)
    as (s1 & Hs & Hh1 & Hb1 & Hd1 & Ht1 & Hl1 & Hk1 & Hr1).
  rewrite Hs. fields in Hh1. fields in Hb1. fields in Hd1. fields in Ht1.
  fields in Hl1. fields in Hk1. fields in Hr1. fields.
  replace (brk s =? sbrk_failed dm) with false
    by (symmetry; apply Z.eqb_neq, sbrk_failed_above; lia).
  replace (brk s1 <? brk s + sizeof_header dm) with false
    by (symmetry; apply Z.ltb_ge; lia).
  rewrite (wrap_small dm (brk s + sizeof_header dm)) by lia.
  rewrite Hd1.
  destruct (head s =? NULL); fields; rewrite Hh1, Ht1.
  all: destruct (Z.eqb_spec (tail s) NULL) as [Htn|Htn]; run; fields.
  all: try (eexists; split; [reflexivity|]; fields; auto 10).
  all: pose proof (wf_tail_in _ _ _ Hwf Htn) as Hin;
       destruct (wf_block _ _ _ _ Hwf Hin) as (ht & Hht & Ht0 & Ht2 & _ & Ht3 & _);
       unfold load; rewrite lookup_insert_ne by lia; rewrite Hht; run;
       eexists; split; [reflexivity|]; fields; auto 10.
Qed.

(** The run of [malloc] when a free block fits. *)
Lemma malloc_reuse_run dm s l size :
  wf dm s l -> size <> 0 ->
  find_first_fit (hdrs s) size l <> NULL ->
  exists a h,
    a = find_first_fit (hdrs s) size l /\ a ∈ l /\
    hdrs s !! a = Some h /\ h_is_free h = true /\ size <= h_size h /\
    malloc dm size s =
      Ok (a + sizeof_header dm,
          set_hdrs (<[a := set_is_free false h]> (hdrs s))
                   (record_call (Call_malloc size) s)).
Proof.
  intros Hwf Hsz Hfit. pose proof (sizeof_header_pos dm) as Hhs.
  pose proof Hwf as Hwf'. apply wf_unfold in Hwf' as (Hc & _).
  destruct (find_first_fit_spec (hdrs s) size (head s) l Hc) as (_ & Hfound).
  destruct (Hfound Hfit) as (l1 & l2 & El & Hf & _).
  set (a := find_first_fit (hdrs s) size l) in *.
  assert (Hin : a ∈ l) by (rewrite El; apply elem_of_app; right; left).
  destruct (wf_block _ _ _ _ Hwf Hin) as (h & Hh & Ha0 & Ha1 & _ & Ha2 & Ha3).
  unfold fits in Hf. rewrite Hh in Hf.
  apply andb_true_iff in Hf as [Hfree Hle]. apply Z.leb_le in Hle.
  exists a, h. repeat split; auto.
  unfold malloc. apply Z.eqb_neq in Hsz. rewrite Hsz.
  change (get_free_block size (record_call (Call_malloc size) s))
    with (get_free_block size s).
  rewrite (get_free_block_chain s size l Hc). fold a. run.
  apply Z.eqb_neq in Hfit. rewrite Hfit. run. fields.
  rewrite (load_Some _ _ _ Hh). run.
  rewrite wrap_small by lia. reflexivity.
Qed.

(** The run of [malloc] when no block fits and [sbrk] refuses. *)
Lemma malloc_fail_run dm s l size :
  wf dm s l -> 0 < size -> sizeof_header dm + size < half_modulus dm ->
  find_first_fit (hdrs s) size l = NULL ->
  limit s < brk s + sizeof_header dm + size ->
  malloc dm size s =
    Ok (NULL, record_call (Call_sbrk (sizeof_header dm + size))
                (record_call (Call_malloc size) s)).
Proof.
  intros Hwf Hsz Hsane Hnone Hfull. pose proof (sizeof_header_pos dm) as Hhs.
  pose proof (half_modulus_double dm) as Hd.
  pose proof Hwf as Hwf'. apply wf_unfold in Hwf' as (Hc & _ & Hb & _).
  unfold malloc.
  replace (size =? 0) with false by (symmetry; apply Z.eqb_neq; lia).
  change (get_free_block size (record_call (Call_malloc size) s))
    with (get_free_block size s).
  rewrite (get_free_block_chain s size l Hc), Hnone. run.
  rewrite (Z.eqb_refl NULL). run.
  rewrite (wrap_small dm (sizeof_header dm + size)) by lia.
  rewrite signed_small by lia.
  unfold sbrk. fields.
  replace (sizeof_header dm + size =? 0) with false
    by (symmetry; apply Z.eqb_neq; lia).
  replace (brk s + (sizeof_header dm + size) <? 0) with false
    by (symmetry; apply Z.ltb_ge; lia).
  replace (limit s <? brk s + (sizeof_header dm + size)) with true
    by (symmetry; apply Z.ltb_lt; lia).
  run. rewrite Z.eqb_refl. reflexivity.
Qed.

Lemma signed_wrap_sane dm size :
  0 <= size -> sizeof_header dm + size < half_modulus dm ->
  signed dm (wrap dm (sizeof_header dm + size)) = sizeof_header dm + size.
Proof.
  intros Hsz Hsane. pose proof (sizeof_header_pos dm).
  pose proof (half_modulus_double dm).
  rewrite wrap_small by lia. apply signed_small. lia.
Qed.

(** X1: on a well-formed heap and for a request that with its header
    stays below half the address space, [malloc] returns; it returns
    [NULL] exactly when the size is zero, or no free block fits and the
    system refuses to raise the break; and then headers, bytes, list and
    break are as before. *)
Theorem malloc_null_iff (dm : data_model) (s : state) (l : list Z) (size : Z) :
  wf dm s l -> 0 <= size -> sizeof_header dm + size < half_modulus dm ->
  exists r s',
    malloc dm size s = Ok (r, s') /\
    (r = NULL <->
     size = 0 \/
     (find_first_fit (hdrs s) size l = NULL /\
      limit s < brk s + sizeof_header dm + size)) /\
    (r = NULL ->
     hdrs s' = hdrs s /\ bytes s' = bytes s /\ head s' = head s /\
     tail s' = tail s /\ brk s' = brk s).
Proof.
  intros Hwf Hsz Hsane. pose proof (sizeof_header_pos dm) as Hhs.
  pose proof Hwf as Hwf'. apply wf_unfold in Hwf' as (_ & _ & Hb & _).
  destruct (Z.eq_dec size 0) as [->|Hnz].
  { rewrite malloc_zero. eexists _, _. split; [reflexivity|].
    split; [tauto|]. intros _. fields. auto. }
  destruct (Z.eq_dec (find_first_fit (hdrs s) size l) NULL) as [Hnone|Hfit].
  - destruct (Z.lt_ge_cases (limit s) (brk s + sizeof_header dm + size))
      as [Hfull|Hroom].
    + rewrite (malloc_fail_run dm s l size Hwf ltac:(lia) Hsane Hnone Hfull).
      eexists _, _. split; [reflexivity|]. split; [tauto|].
      intros _. fields. auto.
    + destruct (malloc_grow_run dm s l size Hwf Hnz Hnone) as (s' & Hm & _).
      { right. rewrite signed_wrap_sane by lia. lia. }
      { rewrite signed_wrap_sane by lia. lia. }
      rewrite Hm. eexists _, _. split; [reflexivity|].
      unfold NULL. split; [split|]; intros; lia.
  - destruct (malloc_reuse_run dm s l size Hwf Hnz Hfit)
      as (a & h & _ & Hin & _ & _ & _ & Hm).
    destruct (wf_block _ _ _ _ Hwf Hin) as (? & _ & Ha0 & _).
    rewrite Hm. eexists _, _. split; [reflexivity|].
    unfold NULL in *. split; [split|]; intros; lia.
Qed.

Lemma wf_not_on_list_at_break dm s l : wf dm s l -> brk s ∉ l.
Proof.
  intros Hwf Hin. pose proof (sizeof_header_pos dm).
  destruct (wf_block _ _ _ _ Hwf Hin) as (h & _ & _ & ? & _ & ? & _). lia.
Qed.

Lemma wf_list_unique dm s l l' : wf dm s l -> wf dm s l' -> l = l'.
Proof.
  intros H H'. apply wf_unfold in H as (Hc & _), H' as (Hc' & _).
  eapply chainb_det; eauto.
Qed.

(** X2: when no free block fits and the break can rise, [malloc] raises
    the break by the header size plus the request and writes the new
    header at the former break: the requested size, in use, no successor.
    The new block becomes [tail]; it becomes [head] too when the list was
    empty, otherwise the former tail gets it as [next].  No other header
    and no payload byte changes, and the list is the old one followed by
    the new block. *)
Theorem malloc_grows_heap (dm : data_model) (s : state) (l : list Z) (size : Z) :
  wf dm s l -> 0 < size -> sizeof_header dm + size < half_modulus dm ->
  find_first_fit (hdrs s) size l = NULL ->
  brk s + sizeof_header dm + size <= limit s ->
  exists s',
    malloc dm size s = Ok (brk s + sizeof_header dm, s') /\
    brk s' = brk s + sizeof_header dm + size /\
    hdrs s' !! brk s =
      Some {| h_size := size; h_is_free := false; h_next := NULL |} /\
    tail s' = brk s /\
    (l = [] -> head s' = brk s) /\
    (l <> [] ->
     head s' = head s /\
     exists ht, hdrs s !! tail s = Some ht /\
                hdrs s' !! tail s = Some (set_next (brk s) ht)) /\
    (forall x, x <> brk s -> x <> tail s -> hdrs s' !! x = hdrs s !! x) /\
    bytes s' = bytes s /\
    wf dm s' (l ++ [brk s]).
Proof.
  intros Hwf Hsz Hsane Hnone Hroom. pose proof (sizeof_header_pos dm) as Hhs.
  assert (Hinc : signed dm (wrap dm (sizeof_header dm + size))
                 = sizeof_header dm + size) by (apply signed_wrap_sane; lia).
  pose proof Hwf as Hwf'.
  apply wf_unfold in Hwf' as (Hc & Ht & Hb & Hl & Hm & Hlay).
  destruct (malloc_grow_run dm s l size Hwf ltac:(lia) Hnone)
    as (s' & Hmal & Hbrk & _ & Hbytes & Hhead & Htail & Hhdrs & _).
  { right. rewrite Hinc. lia. }
  { rewrite Hinc. lia. }
  rewrite Hinc in Hbrk. cbv zeta in Hhdrs.
  set (new := {| h_size := size; h_is_free := false; h_next := NULL |}) in *.
  assert (Hwf' : wf dm s' (l ++ [brk s])).
  { destruct (malloc_preserves_wf dm s l size Hwf Hsz Hsane)
      as (r0 & s0 & l0 & Hmal0 & Hwf0 & Hl0).
    rewrite Hmal in Hmal0. injection Hmal0 as <- <-.
    destruct Hl0 as [->| ->]; [|exact Hwf0]. exfalso.
    pose proof Hwf0 as Hw. apply wf_unfold in Hw as (_ & Ht0 & _).
    rewrite Htail, <- Ht in Ht0.
    destruct (Z.eq_dec (tail s) NULL) as [E|Hn]; [unfold NULL in *; lia|].
    apply (wf_not_on_list_at_break dm s l Hwf). rewrite Ht0.
    apply (wf_tail_in dm s l Hwf Hn). }
  exists s'. split; [exact Hmal|]. split; [lia|].
  destruct l as [|x l0].
  - (* the list was empty *)
    simpl in Hc, Ht. apply Z.eqb_eq in Hc.
    rewrite Ht, (Z.eqb_refl NULL) in Hhdrs. rewrite Hc, (Z.eqb_refl NULL) in Hhead.
    rewrite Hhdrs. split; [apply lookup_insert_eq|]. split; [exact Htail|].
    split; [auto|]. split; [congruence|].
    split; [intros y Hy _; apply lookup_insert_ne; auto|]. auto.
  - (* the list had a tail *)
    assert (Htn : tail s <> NULL).
    { rewrite Ht. intros E.
      assert (Hin : List.last (x :: l0) NULL ∈ x :: l0).
      { destruct (exists_last (l := x :: l0) ltac:(discriminate)) as (l' & t & ->).
        rewrite last_last. apply elem_of_app. right. left. }
      rewrite E in Hin. eapply pathb_nonnull in Hin; [|exact Hc]. congruence. }
    pose proof (wf_tail_in _ _ _ Hwf Htn) as Hin.
    destruct (wf_block _ _ _ _ Hwf Hin) as (ht & Hht & Ht0 & Ht1 & _ & Ht2 & _).
    assert (Hhn : head s <> NULL).
    { apply pathb_cons in Hc as (_ & Hn & _). exact Hn. }
    apply Z.eqb_neq in Htn, Hhn. rewrite Htn, Hht in Hhdrs. rewrite Hhn in Hhead.
    rewrite Hhdrs.
    split; [rewrite lookup_insert_ne by lia; apply lookup_insert_eq|].
    split; [exact Htail|]. split; [discriminate|].
    split.
    { intros _. split; [exact Hhead|]. exists ht. split; [exact Hht|].
      apply lookup_insert_eq. }
    split; [|auto].
    intros y Hy1 Hy2. rewrite lookup_insert_ne by auto.
    apply lookup_insert_ne. auto.
Qed.


Lemma sizeof_header_small dm : sizeof_header dm < half_modulus dm.
Proof. destruct dm; reflexivity. Qed.

(** X4: [malloc] does not notice when the header size plus the request
    exceeds [size_t].  The sum wraps around, [sbrk] raises the break by
    the few bytes that remain, fewer than a header, and the stores of
    the new header at the former break reach past the break: the
    behaviour of the call is not defined. *)
Theorem malloc_total_size_wraps (dm : data_model) (s : state) (l : list Z)
  (size : Z) :
  wf dm s l ->
  0 < size < modulus dm ->
  modulus dm <= sizeof_header dm + size ->
  brk s + sizeof_header dm <= limit s ->
  malloc dm size s = Undefined.
Proof.
  intros Hwf Hsz Hover Hroom. pose proof (sizeof_header_pos dm) as Hhs.
  pose proof (sizeof_header_small dm) as Hsmall.
  pose proof (half_modulus_double dm) as Hd.
  pose proof Hwf as Hwf'.
  apply wf_unfold in Hwf' as (Hc & _ & Hb & Hl & Hm & _).
  assert (Hnone : find_first_fit (hdrs s) size l = NULL).
  { apply (find_first_fit_spec (hdrs s) size (head s) l Hc).
    intros a Ha.
    destruct (wf_block _ _ _ _ Hwf Ha) as (h & Hh & _ & _ & Hhalf & _).
    unfold fits. rewrite Hh. apply andb_false_intro2. apply Z.leb_gt. lia. }
  assert (Hinc : signed dm (wrap dm (sizeof_header dm + size))
                 = sizeof_header dm + size - modulus dm).
  { assert (Hw : wrap dm (sizeof_header dm + size)
                 = sizeof_header dm + size - modulus dm).
    { unfold wrap.
      rewrite <- (Z.mod_add _ (-1)) by lia. rewrite Z.mod_small by lia. lia. }
    rewrite Hw. apply signed_small. lia. }
  unfold malloc.
  replace (size =? 0) with false by (symmetry; apply Z.eqb_neq; lia).
  change (get_free_block size (record_call (Call_malloc size) s))
    with (get_free_block size s).
  rewrite (get_free_block_chain s size l Hc), Hnone. run.
  rewrite (Z.eqb_refl NULL). run. rewrite Hinc.
  set (inc := sizeof_header dm + size - modulus dm).
  destruct (sbrk_ok dm inc (record_call (Call_malloc size) s))
    as (s1 & Hs & _ & _ & _ & _ & _ & Hk1 & _).
  { right. fields. unfold inc. lia. }
  rewrite Hs. fields in Hk1.
  replace (brk (record_call (Call_malloc size) s)) with (brk s) by reflexivity.
  replace (brk s =? sbrk_failed dm) with false
    by (symmetry; apply Z.eqb_neq, sbrk_failed_above; lia).
  replace (brk s1 <? brk s + sizeof_header dm) with true
    by (symmetry; apply Z.ltb_lt; unfold inc in Hk1; lia).
  reflexivity.
Qed.

(** ** Every heap a client reaches *)

Lemma free_null dm s : free dm NULL s = Ok (record_call (Call_free NULL) s).
Proof. reflexivity. Qed.

Lemma realloc_null dm size s : realloc dm NULL size s = malloc dm size s.
Proof. reflexivity. Qed.

Lemma on_list_wf dm s l block :
  wf dm s l -> on_list dm s block -> block - sizeof_header dm ∈ l.
Proof.
  intros Hwf (l0 & Hc0 & Hin). apply wf_unfold in Hwf as (Hc & _).
  rewrite (chainb_det _ _ _ _ Hc Hc0). exact Hin.
Qed.

(** The invariant holds in every heap a client reaches. *)
Lemma reachable_wf dm s : reachable dm s -> exists l, wf dm s l.
Proof.
  induction 1 as [brk0 lim Hb Hl
                 | s size r s' _ [l Hwf] Hsz Hsane Hm
                 | s block s' _ [l Hwf] Hblock Hf
                 | s num nsize r s' _ [l Hwf] Hn Hs Hsane Hc
                 | s block size r s' _ [l Hwf] Hblock Hsz Hsane Hr
                 | s a v _ [l Hwf]].
  - exists []. apply wf_initial; assumption.
  - destruct (Z.eq_dec size 0) as [->|Hnz].
    + rewrite malloc_zero in Hm. injection Hm as _ <-. exists l.
      eapply wf_same_fields; [..|exact Hwf]; reflexivity.
    + destruct (malloc_preserves_wf dm s l size Hwf ltac:(lia) Hsane)
        as (r0 & s0 & l0 & Hm0 & Hwf0 & _).
      rewrite Hm in Hm0. injection Hm0 as _ <-. eauto.
  - destruct Hblock as [->|Hon].
    + rewrite free_null in Hf. injection Hf as <-. exists l.
      eapply wf_same_fields; [..|exact Hwf]; reflexivity.
    + pose proof (on_list_wf dm s l block Hwf Hon) as Hin.
      destruct (free_preserves_wf dm s l _ Hwf Hin) as (s0 & l0 & Hf0 & Hwf0 & _).
      replace (block - sizeof_header dm + sizeof_header dm) with block in Hf0
        by lia.
      rewrite Hf in Hf0. injection Hf0 as <-. eauto.
  - destruct (calloc_preserves_wf dm s l num nsize Hwf Hn Hs Hsane)
      as (r0 & s0 & l0 & Hc0 & Hwf0 & _).
    rewrite Hc in Hc0. injection Hc0 as _ <-. eauto.
  - destruct Hblock as [->|Hon].
    + rewrite realloc_null in Hr.
      destruct (Z.eq_dec size 0) as [->|Hnz].
      * rewrite malloc_zero in Hr. injection Hr as _ <-. exists l.
        eapply wf_same_fields; [..|exact Hwf]; reflexivity.
      * destruct (malloc_preserves_wf dm s l size Hwf ltac:(lia) Hsane)
          as (r0 & s0 & l0 & Hm0 & Hwf0 & _).
        rewrite Hr in Hm0. injection Hm0 as _ <-. eauto.
    + pose proof (on_list_wf dm s l block Hwf Hon) as Hin.
      destruct (realloc_preserves_wf dm s l _ size Hwf Hin Hsz Hsane)
        as (r0 & s0 & l0 & Hr0 & Hwf0).
      replace (block - sizeof_header dm + sizeof_header dm) with block in Hr0
        by lia.
      rewrite Hr in Hr0. injection Hr0 as _ <-. eauto.
  - exists l. eapply wf_same_fields; [..|exact Hwf]; reflexivity.
Qed.

(** In a layout, a block ends before any later block starts. *)
Lemma laid_out_before hsz bound m l1 : forall a0 a l2 e b h,
  0 < hsz ->
  laid_out hsz bound m a0 (l1 ++ a :: l2) e = true ->
  b ∈ l2 -> m !! a = Some h ->
  a + hsz + h_size h <= b.
Proof.
  intros a0 a l2 e b h Hs Hlay Hb Hh.
  apply laid_out_app in Hlay as (c & _ & Hlay).
  apply laid_out_cons in Hlay as (<- & h' & Hh' & _ & _ & Hlay).
  rewrite Hh in Hh'. injection Hh' as <-.
  destruct (laid_out_elem _ _ _ _ _ _ _ Hs Hlay Hb) as (_ & _ & Hle & _).
  exact Hle.
Qed.

Lemma wf_blocks_apart dm s l a b ha hb :
  wf dm s l -> a ∈ l -> b ∈ l -> a <> b ->
  hdrs s !! a = Some ha -> hdrs s !! b = Some hb ->
  a + sizeof_header dm + h_size ha <= b \/
  b + sizeof_header dm + h_size hb <= a.
Proof.
  intros Hwf Ha Hb Hne Hha Hhb. pose proof (sizeof_header_pos dm) as Hhs.
  apply wf_unfold in Hwf as (_ & _ & _ & _ & _ & Hlay).
  destruct l as [|x l]; [inversion Ha|]. destruct Hlay as [_ Hlay].
  destruct (list_elem_of_split _ _ Ha) as (l1 & l2 & E).
  rewrite E in Hb, Hlay.
  apply elem_of_app in Hb as [Hb|Hb].
  - right. destruct (list_elem_of_split _ _ Hb) as (l3 & l4 & ->).
    rewrite <- app_assoc, <- app_comm_cons in Hlay.
    eapply laid_out_before; [exact Hhs|exact Hlay| |exact Hhb].
    apply elem_of_app. right. left.
  - apply elem_of_cons in Hb as [->|Hb]; [contradiction|].
    left. eapply laid_out_before; eauto.
Qed.

(** X5: in every heap a client reaches, two different blocks of the list
    do not overlap: the payload of one ends before the header of the
    other starts.  Each payload has at least one byte, starts right after
    its header and ends at or below the break. *)
Theorem reachable_blocks_disjoint (dm : data_model) (s : state) (p q : Z) :
  reachable dm s ->
  on_list dm s p -> on_list dm s q -> p <> q ->
  exists hp hq,
    hdrs s !! (p - sizeof_header dm) = Some hp /\
    hdrs s !! (q - sizeof_header dm) = Some hq /\
    0 < h_size hp /\ 0 < h_size hq /\
    p + h_size hp <= brk s /\ q + h_size hq <= brk s /\
    (p + h_size hp <= q - sizeof_header dm \/
     q + h_size hq <= p - sizeof_header dm).
Proof.
  intros Hreach Hp Hq Hne.
  destruct (reachable_wf dm s Hreach) as [l Hwf].
  pose proof (on_list_wf dm s l p Hwf Hp) as Hinp.
  pose proof (on_list_wf dm s l q Hwf Hq) as Hinq.
  destruct (wf_block _ _ _ _ Hwf Hinp) as (hp & Hhp & _ & Hp1 & _ & Hp2 & _).
  destruct (wf_block _ _ _ _ Hwf Hinq) as (hq & Hhq & _ & Hq1 & _ & Hq2 & _).
  exists hp, hq. repeat split; auto; try lia.
  destruct (wf_blocks_apart dm s l _ _ hp hq Hwf Hinp Hinq ltac:(lia) Hhp Hhq);
    lia.
Qed.

(** X6: in every heap a client reaches, [head] and [tail] are [NULL]
    together; and when the list is not empty, the header at [tail] has no
    successor and its block ends exactly at the break. *)
Theorem reachable_break_at_tail_end (dm : data_model) (s : state) :
  reachable dm s ->
  (head s = NULL <-> tail s = NULL) /\
  (tail s <> NULL ->
   exists ht,
     hdrs s !! tail s = Some ht /\ h_next ht = NULL /\
     tail s + sizeof_header dm + h_size ht = brk s).
Proof.
  intros Hreach. destruct (reachable_wf dm s Hreach) as [l Hwf].
  pose proof Hwf as Hwf'.
  apply wf_unfold in Hwf' as (Hc & Ht & _ & _ & _ & Hlay).
  destruct l as [|t l' _] using rev_ind.
  - simpl in Hc, Ht. apply Z.eqb_eq in Hc. split; [tauto|]. contradiction.
  - rewrite last_last in Ht.
    assert (Hin : t ∈ l' ++ [t]) by (apply elem_of_app; right; left).
    assert (Htn : t <> NULL) by (eapply pathb_nonnull; eauto).
    assert (Hhn : head s <> NULL).
    { destruct l' as [|y l']; simpl app in Hc;
        apply pathb_cons in Hc as (_ & Hn & _); exact Hn. }
    split; [split; intros E; congruence|]. intros _. rewrite Ht.
    unfold chainb in Hc. apply pathb_app in Hc as (c & _ & Hc).
    apply pathb_cons in Hc as (<- & _ & ht & Hht & Hnext).
    simpl in Hnext. apply Z.eqb_eq in Hnext.
    exists ht. split; [exact Hht|]. split; [exact Hnext|].
    destruct (l' ++ [t]) as [|x l0] eqn:El; [destruct l'; discriminate|].
    destruct Hlay as [_ Hlay]. rewrite <- El in Hlay.
    apply laid_out_app in Hlay as (c & _ & Hlay).
    apply laid_out_cons in Hlay as (<- & ht' & Hht' & _ & _ & Hend).
    rewrite Hht in Hht'. injection Hht' as <-.
    simpl in Hend. apply Z.eqb_eq in Hend. exact Hend.
Qed.

(** X7: in every heap a client reaches, the four operations return when
    called within the contract: no walk over the list runs forever and no
    header is read where none was written. *)
Theorem reachable_calls_return (dm : data_model) (s : state) :
  reachable dm s ->
  (forall size,
     0 <= size -> sizeof_header dm + size < half_modulus dm ->
     exists r s', malloc dm size s = Ok (r, s')) /\
  (forall block,
     block = NULL \/ on_list dm s block ->
     exists s', free dm block s = Ok s') /\
  (forall num nsize,
     0 <= num -> 0 <= nsize ->
     sizeof_header dm + num * nsize < half_modulus dm ->
     exists r s', calloc dm num nsize s = Ok (r, s')) /\
  (forall block size,
     block = NULL \/ on_list dm s block ->
     0 <= size -> sizeof_header dm + size < half_modulus dm ->
     exists r s', realloc dm block size s = Ok (r, s')).
Proof.
  intros Hreach. destruct (reachable_wf dm s Hreach) as [l Hwf].
  assert (Hmalloc : forall size,
            0 <= size -> sizeof_header dm + size < half_modulus dm ->
            exists r s', malloc dm size s = Ok (r, s')).
  { intros size Hsz Hsane. destruct (Z.eq_dec size 0) as [->|Hnz].
    - rewrite malloc_zero. eauto.
    - destruct (malloc_preserves_wf dm s l size Hwf ltac:(lia) Hsane)
        as (r & s' & _ & Hm & _). eauto. }
  split; [exact Hmalloc|]. split; [|split].
  - intros block [->|Hon].
    + rewrite free_null. eauto.
    + pose proof (on_list_wf dm s l block Hwf Hon) as Hin.
      destruct (free_preserves_wf dm s l _ Hwf Hin) as (s' & _ & Hf & _).
      replace (block - sizeof_header dm + sizeof_header dm) with block in Hf
        by lia.
      eauto.
  - intros num nsize Hn Hs Hsane.
    destruct (calloc_preserves_wf dm s l num nsize Hwf Hn Hs Hsane)
      as (r & s' & _ & Hc & _). eauto.
  - intros block size [->|Hon] Hsz Hsane.
    + rewrite realloc_null. apply Hmalloc; assumption.
    + pose proof (on_list_wf dm s l block Hwf Hon) as Hin.
      destruct (realloc_preserves_wf dm s l _ size Hwf Hin Hsz Hsane)
        as (r & s' & _ & Hr & _).
      replace (block - sizeof_header dm + sizeof_header dm) with block in Hr
        by lia.
      eauto.
Qed.

(** ** Calls in sequence *)

(** The run of [free] on a block of the list that does not end at the
    break. *)
Lemma free_mid_run dm s l a h :
  wf dm s l -> a ∈ l -> hdrs s !! a = Some h ->
  a + sizeof_header dm + h_size h <> brk s ->
  free dm (a + sizeof_header dm) s =
    Ok (set_hdrs (<[a := set_is_free true h]> (hdrs s))
          (record_call (Call_sbrk 0)
             (record_call (Call_free (a + sizeof_header dm)) s))).
Proof.
  intros Hwf Ha Hh Hmid. pose proof (sizeof_header_pos dm) as Hhs.
  destruct (wf_block _ _ _ _ Hwf Ha) as (h' & Hh' & Ha0 & Ha1 & _ & Ha2 & Ha3).
  rewrite Hh in Hh'. injection Hh' as <-.
  unfold free.
  replace (a + sizeof_header dm =? NULL) with false
    by (symmetry; apply Z.eqb_neq; unfold NULL; lia).
  rewrite sbrk_zero. run. fields.
  replace (a + sizeof_header dm - sizeof_header dm) with a by lia.
  rewrite (wrap_small dm a) by lia.
  rewrite (load_Some _ _ _ Hh). run.
  rewrite (wrap_small dm (a + sizeof_header dm + h_size h)) by lia.
  apply Z.eqb_neq in Hmid. rewrite Hmid. reflexivity.
Qed.

Lemma load_None (m : gmap Z header) a : m !! a = None -> load m a = Undefined.
Proof. intros H. unfold load. rewrite H. reflexivity. Qed.

Lemma unlink_tail_from_bytes fuel : forall s tmp s',
  unlink_tail_from fuel s tmp = Ok s' -> bytes s' = bytes s.
Proof.
  induction fuel as [|fuel IH]; intros s tmp s';
    [cbn [unlink_tail_from]; discriminate|].
  rewrite unlink_tail_from_S. destruct (tmp =? NULL).
  { intros Heq. simplify_eq. reflexivity. }
  destruct (hdrs s !! tmp) as [h|] eqn:Hh;
    [rewrite (load_Some _ _ _ Hh) | rewrite (load_None _ _ Hh)]; run;
    [|discriminate].
  destruct (h_next h =? tail s).
  - unfold load. fields. rewrite lookup_insert_eq. run.
    intros Heq. apply IH in Heq. exact Heq.
  - rewrite (load_Some _ _ _ Hh). run. apply IH.
Qed.

(** [free] writes no payload byte. *)
Lemma free_bytes dm block s s' : free dm block s = Ok s' -> bytes s' = bytes s.
Proof.
  unfold free. cbv zeta. destruct (block =? NULL).
  { intros Heq. simplify_eq. reflexivity. }
  rewrite sbrk_zero. run. fields.
  set (a := wrap dm (block - sizeof_header dm)).
  set (s0 := record_call (Call_sbrk 0) (record_call (Call_free block) s)).
  destruct (hdrs s !! a) as [h|] eqn:Hh;
    [rewrite (load_Some _ _ _ Hh) | rewrite (load_None _ _ Hh)]; run;
    [|discriminate].
  destruct (wrap dm (block + h_size h) =? brk s).
  - assert (Hshrink : forall s1 s2,
              bytes s1 = bytes s ->
              (h1 ← load (hdrs s1) a;
               let '(_, s3) :=
                 sbrk dm (signed dm (wrap dm (0 - sizeof_header dm - h_size h1)))
                   s1 in Ok s3) = Ok s2 ->
              bytes s2 = bytes s).
    { intros s1 s2 Hb1.
      destruct (hdrs s1 !! a) as [h1|] eqn:Hh1;
        [rewrite (load_Some _ _ _ Hh1) | rewrite (load_None _ _ Hh1)]; run;
        [|discriminate].
      destruct (sbrk dm (signed dm (wrap dm (0 - sizeof_header dm - h_size h1))) s1)
        as [b s3] eqn:Hs.
      apply sbrk_cases in Hs as [[_ ->] | (_ & _ & Hb & _)].
      - intros Heq. simplify_eq. exact Hb1.
      - intros Heq. simplify_eq. congruence. }
    destruct (head s =? tail s); run.
    + apply Hshrink. reflexivity.
    + destruct (unlink_tail_from (S (base.size (hdrs s))) s0 (head s))
        as [s1| |] eqn:Hu; run; try discriminate.
      apply unlink_tail_from_bytes in Hu. apply Hshrink. exact Hu.
  - intros Heq. simplify_eq. reflexivity.
Qed.

Lemma wf_tail_header dm s l :
  wf dm s l -> tail s <> NULL ->
  exists ht, hdrs s !! tail s = Some ht /\ h_next ht = NULL.
Proof.
  intros Hwf Htn. pose proof (wf_tail_in _ _ _ Hwf Htn) as Hin.
  apply wf_unfold in Hwf as (Hc & Ht & _).
  destruct l as [|t l' _] using rev_ind; [inversion Hin|].
  rewrite last_last in Ht. rewrite Ht.
  unfold chainb in Hc. apply pathb_app in Hc as (c & _ & Hc).
  apply pathb_cons in Hc as (<- & _ & ht & Hht & Hnext).
  simpl in Hnext. apply Z.eqb_eq in Hnext. eauto.
Qed.

Lemma wf_head_tail_of_list dm s s' l :
  wf dm s l -> wf dm s' l -> head s' = head s /\ tail s' = tail s.
Proof.
  intros H H'. apply wf_unfold in H as (Hc & Ht & _), H' as (Hc' & Ht' & _).
  split; [|congruence].
  destruct l as [|x l].
  - simpl in Hc, Hc'. apply Z.eqb_eq in Hc, Hc'. congruence.
  - apply pathb_cons in Hc as (<- & _), Hc' as (<- & _). reflexivity.
Qed.

Lemma wf_laid_out dm s l :
  wf dm s l -> l <> [] ->
  exists x, laid_out (sizeof_header dm) (half_modulus dm) (hdrs s) x l (brk s)
            = true.
Proof.
  intros Hwf Hl. apply wf_unfold in Hwf as (_ & _ & _ & _ & _ & Hlay).
  destruct l as [|x l]; [contradiction|]. exists x. apply Hlay.
Qed.

Lemma find_first_here (f : Z -> bool) l1 a l2 :
  (forall b, b ∈ l1 -> f b = false) -> f a = true ->
  find f (l1 ++ a :: l2) = Some a.
Proof.
  intros Hl1 Ha. induction l1 as [|x l1 IH]; simpl.
  - rewrite Ha. reflexivity.
  - rewrite (Hl1 x) by left. apply IH. intros b Hb. apply Hl1. right. exact Hb.
Qed.

Lemma set_is_free_back h :
  h_is_free h = false -> set_is_free false (set_is_free true h) = h.
Proof. destruct h as [sz fr nx]. simpl. intros ->. reflexivity. Qed.

(** X8: releasing an in-use block that is not the last of the list and
    then asking for a size it covers, when no earlier block is free and
    large enough, hands the same address back; headers, bytes, list and
    break are then what they were before the two calls. *)
Theorem free_then_malloc_returns_block (dm : data_model) (s : state)
  (l1 l2 : list Z) (a : Z) (h : header) (size : Z) :
  wf dm s (l1 ++ a :: l2) ->
  l2 <> [] ->
  hdrs s !! a = Some h ->
  h_is_free h = false ->
  0 < size <= h_size h ->
  (forall b, b ∈ l1 -> fits (hdrs s) size b = false) ->
  exists s1 s2,
    free dm (a + sizeof_header dm) s = Ok s1 /\
    malloc dm size s1 = Ok (a + sizeof_header dm, s2) /\
    hdrs s2 = hdrs s /\ bytes s2 = bytes s /\
    head s2 = head s /\ tail s2 = tail s /\ brk s2 = brk s.
Proof.
  intros Hwf Hl2 Hh Hused Hsz Hl1. pose proof (sizeof_header_pos dm) as Hhs.
  set (l := l1 ++ a :: l2) in *.
  assert (Ha : a ∈ l) by (apply elem_of_app; right; left).
  pose proof Hwf as Hwf'.
  apply wf_unfold in Hwf' as (Hc & _ & _ & _ & _ & Hlay).
  pose proof (chainb_NoDup _ _ _ Hc) as Hnd.
  (* the block does not end at the break *)
  assert (Hmid : a + sizeof_header dm + h_size h <> brk s).
  { destruct l2 as [|b l2]; [contradiction|].
    assert (Hb : b ∈ l) by (apply elem_of_app; right; right; left).
    destruct (wf_block _ _ _ _ Hwf Hb) as (hb & _ & _ & Hb1 & _ & Hb2 & _).
    assert (a + sizeof_header dm + h_size h <= b).
    { destruct (wf_laid_out dm s l Hwf) as [x Hx].
      { unfold l. destruct l1; discriminate. }
      eapply laid_out_before; [exact Hhs|exact Hx|left|exact Hh]. }
    lia. }
  rewrite (free_mid_run dm s l a h Hwf Ha Hh Hmid).
  set (s1 := set_hdrs (<[a := set_is_free true h]> (hdrs s))
               (record_call (Call_sbrk 0)
                  (record_call (Call_free (a + sizeof_header dm)) s))).
  assert (Hwf1 : wf dm s1 l).
  { eapply wf_same_fields;
      [| | | | |apply (wf_set_is_free dm s l a h true Hwf Hh)]; reflexivity. }
  assert (Hfit : find_first_fit (hdrs s1) size l = a).
  { unfold find_first_fit, l. rewrite (find_first_here _ l1 a l2); [reflexivity| |].
    - intros b Hb. specialize (Hl1 b Hb). unfold fits in *. subst s1. fields.
      rewrite lookup_insert_ne; [exact Hl1|].
      intros ->. apply NoDup_app in Hnd as (_ & Hnin & _).
      apply (Hnin b Hb). left.
    - unfold fits. subst s1. fields. rewrite lookup_insert_eq. simpl.
      apply Z.leb_le. lia. }
  assert (Han : a <> NULL) by (eapply pathb_nonnull; eauto).
  destruct (malloc_reuse_run dm s1 l size Hwf1 ltac:(lia))
    as (a' & h' & Ea & _ & Hh' & _ & _ & Hm).
  { rewrite Hfit. exact Han. }
  rewrite Hfit in Ea. subst a'.
  assert (h' = set_is_free true h) as ->.
  { subst s1. fields in Hh'. rewrite lookup_insert_eq in Hh'. congruence. }
  eexists _, _. split; [reflexivity|]. split; [exact Hm|].
  subst s1. fields. repeat split.
  rewrite insert_insert_eq, set_is_free_back by exact Hused.
  apply insert_id. exact Hh.
Qed.

Lemma set_next_back ht b :
  h_next ht = NULL -> set_next NULL (set_next b ht) = ht.
Proof. destruct ht as [sz fr nx]. simpl. intros ->. reflexivity. Qed.

Lemma wf_head_tail_null dm s l :
  wf dm s l -> (head s = NULL -> tail s = NULL) /\ (tail s = NULL -> head s = NULL).
Proof.
  intros Hwf. apply wf_unfold in Hwf as (Hc & Ht & _).
  destruct l as [|y l' _] using rev_ind.
  - simpl in Hc, Ht. apply Z.eqb_eq in Hc. auto.
  - rewrite last_last in Ht.
    assert (Hy : y <> NULL).
    { eapply pathb_nonnull; [exact Hc|]. apply elem_of_app. right. left. }
    assert (Hh : head s <> NULL).
    { destruct l' as [|z l']; simpl app in Hc;
        apply pathb_cons in Hc as (_ & Hn & _); exact Hn. }
    split; intros E; congruence.
Qed.

(** X9: when no free block fits, [malloc] followed by [free] of the
    address it returned gives the memory back: the break, [head] and
    [tail] are as before the two calls, and so is every header at an
    address other than the former break; no payload byte changes. *)
Theorem malloc_then_free_restores (dm : data_model) (s : state) (l : list Z)
  (size : Z) :
  wf dm s l -> 0 < size -> sizeof_header dm + size < half_modulus dm ->
  find_first_fit (hdrs s) size l = NULL ->
  brk s + sizeof_header dm + size <= limit s ->
  exists s1 s2,
    malloc dm size s = Ok (brk s + sizeof_header dm, s1) /\
    free dm (brk s + sizeof_header dm) s1 = Ok s2 /\
    brk s1 = brk s + sizeof_header dm + size /\
    brk s2 = brk s /\ head s2 = head s /\ tail s2 = tail s /\
    (forall x, x <> brk s -> hdrs s2 !! x = hdrs s !! x) /\
    bytes s2 = bytes s /\
    wf dm s2 l.
Proof.
  intros Hwf Hsz Hsane Hnone Hroom. pose proof (sizeof_header_pos dm) as Hhs.
  assert (Hinc : signed dm (wrap dm (sizeof_header dm + size))
                 = sizeof_header dm + size) by (apply signed_wrap_sane; lia).
  assert (Hb : 0 < brk s) by (apply wf_unfold in Hwf; tauto).
  assert (Hm : limit s + sizeof_header dm < modulus dm)
    by (apply wf_unfold in Hwf; tauto).
  destruct (malloc_grow_run dm s l size Hwf ltac:(lia) Hnone)
    as (s1 & Hmal & Hbrk & _ & Hbytes & Hhead & Htail & Hhdrs & _).
  { right. rewrite Hinc. lia. }
  { rewrite Hinc. lia. }
  rewrite Hinc in Hbrk. cbv zeta in Hhdrs.
  set (new := {| h_size := size; h_is_free := false; h_next := NULL |}) in *.
  (* the grown heap is well-formed, with the new block last *)
  assert (Hwf1 : wf dm s1 (l ++ [brk s])).
  { destruct (malloc_preserves_wf dm s l size Hwf Hsz Hsane)
      as (r0 & s0 & l0 & Hmal0 & Hwf0 & Hl0).
    rewrite Hmal in Hmal0. injection Hmal0 as <- <-.
    destruct Hl0 as [->| ->]; [|exact Hwf0]. exfalso.
    assert (Hin : tail s1 ∈ l).
    { apply (wf_tail_in dm s1 l Hwf0). rewrite Htail. unfold NULL. lia. }
    rewrite Htail in Hin. apply (wf_not_on_list_at_break dm s l Hwf Hin). }
  assert (Hin1 : brk s ∈ l ++ [brk s]) by (apply elem_of_app; right; left).
  destruct (wf_block _ _ _ _ Hwf1 Hin1) as (hn & Hhn & _ & _ & _ & Hend & _).
  assert (Hnew : hdrs s1 !! brk s = Some new).
  { rewrite Hhdrs. destruct (Z.eqb_spec (tail s) NULL) as [_|Htn].
    - apply lookup_insert_eq.
    - pose proof (wf_tail_in _ _ _ Hwf Htn) as Hint.
      destruct (wf_block _ _ _ _ Hwf Hint) as (ht & Hht & _ & Ht1 & _ & Ht2 & _).
      rewrite Hht. rewrite lookup_insert_ne by lia. apply lookup_insert_eq. }
  destruct (free_terminal_run dm s1 (l ++ [brk s]) (brk s) new Hwf1 Hin1 Hnew)
    as (s2 & _ & Hfree & Hbrk2 & Hone & Hmore & Hwf2).
  { rewrite wrap_small; simpl; lia. }
  rewrite removelast_last in Hwf2.
  destruct (wf_head_tail_of_list dm s s2 l Hwf Hwf2) as [Hhead2 Htail2].
  exists s1, s2. split; [exact Hmal|]. split; [exact Hfree|].
  split; [lia|]. split; [simpl in Hbrk2; lia|].
  split; [exact Hhead2|]. split; [exact Htail2|].
  split; [|split; [|exact Hwf2]].
  - intros x Hx.
    destruct (Z.eq_dec (tail s) NULL) as [Htn|Htn].
    + (* the list was empty: the new block was head and tail *)
      rewrite Htn, (Z.eqb_refl NULL) in Hhdrs.
      assert (Hhn0 : head s = NULL).
      { destruct (wf_head_tail_null dm s l Hwf) as [_ Hht]. auto. }
      rewrite Hhn0, (Z.eqb_refl NULL) in Hhead.
      destruct Hone as (_ & _ & E); [congruence|].
      rewrite E, Hhdrs. apply lookup_insert_ne. auto.
    + (* the former tail gets its [NULL] back *)
      destruct (wf_tail_header dm s l Hwf Htn) as (ht & Hht & Hnext).
      pose proof (wf_tail_in _ _ _ Hwf Htn) as Hint.
      assert (Htb : tail s <> brk s).
      { intros E. rewrite E in Hint.
        apply (wf_not_on_list_at_break dm s l Hwf Hint). }
      replace (tail s =? NULL) with false in Hhdrs
        by (symmetry; apply Z.eqb_neq; exact Htn).
      rewrite Hht in Hhdrs.
      assert (Hhn0 : head s <> NULL).
      { apply wf_unfold in Hwf as (Hc & _).
        destruct l as [|y l']; [inversion Hint|].
        apply pathb_cons in Hc as (_ & Hn & _). exact Hn. }
      apply Z.eqb_neq in Hhn0. rewrite Hhn0 in Hhead.
      assert (Hht_in : head s ∈ l).
      { apply wf_unfold in Hwf as (Hc & _).
        destruct l as [|y l']; [inversion Hint|].
        apply pathb_cons in Hc as (<- & _). left. }
      destruct Hmore as (p & hp & Hp & _ & E & Htp & _).
      { rewrite Hhead, Htail. intros E. rewrite E in Hht_in.
        apply (wf_not_on_list_at_break dm s l Hwf Hht_in). }
      assert (Ep : p = tail s) by congruence. clear Htp. subst p.
      rewrite Hhdrs, lookup_insert_eq in Hp. injection Hp as <-.
      rewrite E, Hhdrs, insert_insert_eq, set_next_back by exact Hnext.
      destruct (Z.eq_dec x (tail s)) as [->|Hxt].
      * rewrite lookup_insert_eq. symmetry. exact Hht.
      * rewrite lookup_insert_ne by auto. apply lookup_insert_ne. auto.
  - rewrite (free_bytes _ _ _ _ Hfree). exact Hbytes.
Qed.

(** ** [calloc] and [realloc] on top of [malloc] and [free] *)

(** X10: for nonzero arguments whose product fits in [size_t], [calloc]
    allocates exactly as [malloc] of the product does: it returns the
    same address, with the same headers, list and break, and the only
    further effect is the [memset] over the requested bytes when the
    address is not [NULL]. *)
Theorem calloc_is_malloc_then_memset (dm : data_model) (s : state)
  (num nsize r : Z) (s1 : state) :
  0 < num -> 0 < nsize -> num * nsize < modulus dm ->
  malloc dm (num * nsize) s = Ok (r, s1) ->
  exists s',
    calloc dm num nsize s = Ok (r, s') /\
    hdrs s' = hdrs s1 /\ head s' = head s1 /\ tail s' = tail s1 /\
    brk s' = brk s1 /\
    (r = NULL -> s' = s1) /\
    (r <> NULL -> s' = memset dm r 0 (num * nsize) s1).
Proof.
  intros Hn Hs Hfit Hm. unfold calloc.
  replace (num =? 0) with false by (symmetry; apply Z.eqb_neq; lia).
  replace (nsize =? 0) with false by (symmetry; apply Z.eqb_neq; lia).
  run. rewrite wrap_small by nia.
  replace (nsize =? num * nsize / num) with true
    by (symmetry; apply Z.eqb_eq; rewrite Z.mul_comm; symmetry;
        apply Z.div_mul; lia).
  run. rewrite Hm. run.
  destruct (Z.eqb_spec r NULL) as [->|Hr].
  - exists s1. repeat split; auto. intros H. contradiction.
  - eexists. split; [reflexivity|]. repeat split; auto.
    intros H. contradiction.
Qed.

Lemma memcpy_lookup dm dst src n s i :
  0 <= dst -> dst + n <= modulus dm -> 0 <= i < n ->
  bytes (memcpy dm dst src n s) !! (dst + i) = bytes s !! wrap dm (src + i).
Proof.
  intros Hd Hn Hi. unfold memcpy. fields.
  assert (Hin : i ∈ seqZ 0 n) by (apply elem_of_seqZ; lia).
  assert (Hall : forall j, j ∈ seqZ 0 n -> 0 <= j < n).
  { intros j Hj. apply elem_of_seqZ in Hj. lia. }
  rewrite <- (wrap_small dm (dst + i)) by lia.
  induction (seqZ 0 n) as [|j js IH]; [inversion Hin|].
  cbn [fold_right].
  assert (Hj : 0 <= j < n) by (apply Hall; left).
  destruct (Z.eq_dec j i) as [->|Hne].
  - destruct (bytes s !! wrap dm (src + i)) as [v|].
    + apply lookup_insert_eq.
    + apply lookup_delete_eq.
  - assert (Hk : wrap dm (dst + j) <> wrap dm (dst + i)).
    { rewrite !wrap_small by lia. lia. }
    assert (Hi' : i ∈ js).
    { apply elem_of_cons in Hin as [E|Hin]; [congruence|exact Hin]. }
    destruct (bytes s !! wrap dm (src + j)) as [v|].
    + rewrite lookup_insert_ne by exact Hk. apply IH; auto.
      intros k Hk'. apply Hall. right. exact Hk'.
    + rewrite lookup_delete_ne by exact Hk. apply IH; auto.
      intros k Hk'. apply Hall. right. exact Hk'.
Qed.

(** What a successful [malloc] leaves behind, for a request of sane
    size. *)
Lemma malloc_sane_inv dm s l size r s1 :
  wf dm s l -> 0 < size -> sizeof_header dm + size < half_modulus dm ->
  malloc dm size s = Ok (r, s1) -> r <> NULL ->
  exists l1 hr,
    wf dm s1 l1 /\ (forall x, x ∈ l -> x ∈ l1) /\
    r - sizeof_header dm ∈ l1 /\
    hdrs s1 !! (r - sizeof_header dm) = Some hr /\
    h_is_free hr = false /\ size <= h_size hr /\
    (r - sizeof_header dm ∈ l ->
     exists h', hdrs s !! (r - sizeof_header dm) = Some h' /\ size <= h_size h') /\
    (forall x, x ∈ l -> h_size <$> (hdrs s1 !! x) = h_size <$> (hdrs s !! x)) /\
    bytes s1 = bytes s.
Proof.
  intros Hwf Hsz Hsane Hmal Hr. pose proof (sizeof_header_pos dm) as Hhs.
  assert (Hb : 0 < brk s) by (apply wf_unfold in Hwf; tauto).
  pose proof (malloc_bytes _ _ _ _ _ Hmal) as Hbytes.
  destruct (Z.eq_dec (find_first_fit (hdrs s) size l) NULL) as [Hnone|Hfit].
  - destruct (Z.lt_ge_cases (limit s) (brk s + sizeof_header dm + size))
      as [Hfull|Hroom].
    { rewrite (malloc_fail_run dm s l size Hwf Hsz Hsane Hnone Hfull) in Hmal.
      injection Hmal as <- _. contradiction. }
    destruct (malloc_grow_run dm s l size Hwf ltac:(lia) Hnone)
      as (s0 & Hm0 & _ & _ & _ & _ & Htail & Hhdrs & _).
    { right. rewrite signed_wrap_sane by lia. lia. }
    { rewrite signed_wrap_sane by lia. lia. }
    rewrite Hmal in Hm0. injection Hm0 as -> <-. cbv zeta in Hhdrs.
    replace (brk s + sizeof_header dm - sizeof_header dm) with (brk s) by lia.
    set (new := {| h_size := size; h_is_free := false; h_next := NULL |}) in *.
    assert (Hwf1 : wf dm s1 (l ++ [brk s])).
    { destruct (malloc_preserves_wf dm s l size Hwf Hsz Hsane)
        as (r0 & s0 & l0 & Hmal0 & Hwf0 & Hl0).
      rewrite Hmal in Hmal0. injection Hmal0 as _ <-.
      destruct Hl0 as [->| ->]; [|exact Hwf0]. exfalso.
      assert (Hin : tail s1 ∈ l).
      { apply (wf_tail_in dm s1 l Hwf0). rewrite Htail. unfold NULL. lia. }
      rewrite Htail in Hin. apply (wf_not_on_list_at_break dm s l Hwf Hin). }
    assert (Hsizes : forall x, x <> brk s ->
              h_size <$> (hdrs s1 !! x) = h_size <$> (hdrs s !! x)).
    { intros x Hx. rewrite Hhdrs.
      destruct (tail s =? NULL); [rewrite lookup_insert_ne by auto; reflexivity|].
      destruct (hdrs s !! tail s) as [ht|] eqn:Hht;
        [|rewrite lookup_insert_ne by auto; reflexivity].
      destruct (Z.eq_dec x (tail s)) as [->|Hxt].
      - rewrite lookup_insert_eq, Hht. reflexivity.
      - rewrite lookup_insert_ne by auto. rewrite lookup_insert_ne by auto.
        reflexivity. }
    assert (Hnew : hdrs s1 !! brk s = Some new).
    { destruct (malloc_cases dm s l size Hwf ltac:(lia)) as [E|(r1 & s2 & E & Hcases)];
      [congruence|].
      rewrite Hmal in E. injection E as <- <-.
      destruct Hcases as [[Hn _] | [(a & h & Hina & _ & _ & _ & Hra & _) | (_ & _ & Hnew)]].
      - unfold NULL in Hn. lia.
      - exfalso. apply (wf_not_on_list_at_break dm s l Hwf).
        replace (brk s) with a by lia. exact Hina.
      - exact Hnew. }
    exists (l ++ [brk s]), new. split; [exact Hwf1|].
    split; [intros x Hx; apply elem_of_app; left; exact Hx|].
    split; [apply elem_of_app; right; left|].
    split; [exact Hnew|]. split; [reflexivity|]. split; [simpl; lia|].
    split.
    { intros Hin. exfalso. apply (wf_not_on_list_at_break dm s l Hwf Hin). }
    split; [|exact Hbytes].
    intros x Hx. apply Hsizes. intros ->.
    apply (wf_not_on_list_at_break dm s l Hwf Hx).
  - destruct (malloc_reuse_run dm s l size Hwf ltac:(lia) Hfit)
      as (a & h & _ & Hin & Hh & _ & Hle & Hm1).
    rewrite Hmal in Hm1. injection Hm1 as -> ->.
    replace (a + sizeof_header dm - sizeof_header dm) with a by lia.
    exists l, (set_is_free false h). fields.
    split.
    { eapply wf_same_fields;
        [| | | | |apply (wf_set_is_free dm s l a h false Hwf Hh)]; reflexivity. }
    split; [auto|]. split; [exact Hin|].
    split; [apply lookup_insert_eq|]. split; [reflexivity|].
    split; [simpl; lia|]. split; [intros _; eauto|].
    split; [|reflexivity].
    intros x Hx. destruct (Z.eq_dec x a) as [->|Hne].
    + rewrite lookup_insert_eq, Hh. reflexivity.
    + rewrite lookup_insert_ne by auto. reflexivity.
Qed.

(** What [free] of a block of the list leaves behind. *)
Lemma free_effect dm s l a :
  wf dm s l -> a ∈ l ->
  exists s' l',
    free dm (a + sizeof_header dm) s = Ok s' /\ wf dm s' l' /\
    bytes s' = bytes s /\
    (a ∈ l' -> h_is_free <$> (hdrs s' !! a) = Some true) /\
    (forall x, x ∈ l -> x <> a ->
       x ∈ l' /\ h_is_free <$> (hdrs s' !! x) = h_is_free <$> (hdrs s !! x)).
Proof.
  intros Hwf Ha. pose proof (sizeof_header_pos dm) as Hhs.
  destruct (wf_block _ _ _ _ Hwf Ha) as (h & Hh & Ha0 & Ha1 & _ & Ha2 & Ha3).
  destruct (Z.eq_dec (a + sizeof_header dm + h_size h) (brk s)) as [Hterm|Hmid].
  - destruct (free_terminal_run dm s l a h Hwf Ha Hh) as
      (s' & Htail & Hfree & _ & Hone & Hmore & Hwf').
    { rewrite wrap_small by lia. exact Hterm. }
    pose proof Hwf as Hw. apply wf_unfold in Hw as (Hc & Ht & _).
    pose proof (chainb_NoDup _ _ _ Hc) as Hnd.
    destruct l as [|t l0 _] using rev_ind; [inversion Ha|].
    rewrite last_last in Ht. assert (Et : t = a) by congruence.
    clear Ht. subst t. rewrite removelast_last in Hwf'.
    assert (Hnin : a ∉ l0).
    { intros Hin. apply NoDup_app in Hnd as (_ & Hno & _).
      apply (Hno a Hin). left. }
    exists s', l0. split; [exact Hfree|]. split; [exact Hwf'|].
    split; [apply (free_bytes _ _ _ _ Hfree)|].
    split; [intros Hin; contradiction|].
    intros x Hx Hxa. split.
    { apply elem_of_app in Hx as [Hx|Hx]; [exact Hx|].
      apply list_elem_of_singleton in Hx. contradiction. }
    destruct (Z.eq_dec (head s) (tail s)) as [E|Hne].
    + destruct (Hone E) as (_ & _ & ->). reflexivity.
    + destruct (Hmore Hne) as (p & hp & Hp & _ & -> & _).
      destruct (Z.eq_dec x p) as [->|Hxp].
      * rewrite lookup_insert_eq, Hp. reflexivity.
      * rewrite lookup_insert_ne by auto. reflexivity.
  - rewrite (free_mid_run dm s l a h Hwf Ha Hh Hmid).
    eexists _, l. split; [reflexivity|]. fields.
    split.
    { eapply wf_same_fields;
        [| | | | |apply (wf_set_is_free dm s l a h true Hwf Hh)]; reflexivity. }
    split; [reflexivity|].
    split; [intros _; rewrite lookup_insert_eq; reflexivity|].
    intros x Hx Hxa. split; [exact Hx|].
    rewrite lookup_insert_ne by auto. reflexivity.
Qed.

(** The run of [realloc] when the block is too small. *)
Lemma realloc_grow_run dm s l a h size r s1 :
  wf dm s l -> a ∈ l -> hdrs s !! a = Some h -> h_size h < size ->
  malloc dm size s = Ok (r, s1) ->
  realloc dm (a + sizeof_header dm) size s =
    if negb (r =? NULL) then
      h1 ← load (hdrs s1) a;
      s3 ← free dm (a + sizeof_header dm)
             (memcpy dm r (a + sizeof_header dm) (h_size h1) s1);
      Ok (r, s3)
    else Ok (r, s1).
Proof.
  intros Hwf Ha Hh Hlt Hm. pose proof (sizeof_header_pos dm) as Hhs.
  destruct (wf_block _ _ _ _ Hwf Ha) as (h' & Hh' & Ha0 & Ha1 & _ & Ha2 & Ha3).
  rewrite Hh in Hh'. injection Hh' as <-.
  unfold realloc.
  replace (a + sizeof_header dm =? NULL) with false
    by (symmetry; apply Z.eqb_neq; unfold NULL; lia).
  replace (size =? 0) with false by (symmetry; apply Z.eqb_neq; lia).
  run.
  replace (a + sizeof_header dm - sizeof_header dm) with a by lia.
  rewrite (wrap_small dm a) by lia.
  rewrite (load_Some _ _ _ Hh). run.
  replace (size <=? h_size h) with false by (symmetry; apply Z.leb_gt; lia).
  rewrite Hm. reflexivity.
Qed.

(** A [realloc] that moves the block is a [malloc], a [memcpy] of the old
    recorded size and a [free] of the old address. *)
Lemma realloc_grow_inv dm s l a h size r s' :
  wf dm s l -> a ∈ l -> hdrs s !! a = Some h -> h_size h < size ->
  sizeof_header dm + size < half_modulus dm ->
  realloc dm (a + sizeof_header dm) size s = Ok (r, s') ->
  r <> NULL ->
  exists s1,
    malloc dm size s = Ok (r, s1) /\
    free dm (a + sizeof_header dm)
      (memcpy dm r (a + sizeof_header dm) (h_size h) s1) = Ok s'.
Proof.
  intros Hwf Ha Hh Hlt Hsane Hr Hnn.
  destruct (wf_block _ _ _ _ Hwf Ha) as (h' & Hh' & _ & Ha1 & _).
  rewrite Hh in Hh'. injection Hh' as <-.
  destruct (malloc_preserves_wf dm s l size Hwf ltac:(lia) Hsane)
    as (r0 & s1 & _ & Hm & _).
  rewrite (realloc_grow_run dm s l a h size r0 s1 Hwf Ha Hh Hlt Hm) in Hr.
  destruct (Z.eqb_spec r0 NULL) as [->|Hr0]; run in Hr.
  { injection Hr as <- _. contradiction. }
  destruct (malloc_sane_inv dm s l size r0 s1 Hwf ltac:(lia) Hsane Hm Hr0)
    as (l1 & hr & Hwf1 & Hsub & _ & _ & _ & _ & _ & Hsizes & _).
  specialize (Hsizes a Ha). rewrite Hh in Hsizes.
  destruct (hdrs s1 !! a) as [h1|] eqn:Hh1; [|discriminate].
  simpl in Hsizes. injection Hsizes as Hsize.
  rewrite (load_Some _ _ _ Hh1) in Hr. run in Hr. rewrite Hsize in Hr.
  destruct (free dm (a + sizeof_header dm)
              (memcpy dm r0 (a + sizeof_header dm) (h_size h) s1))
    as [s3| |] eqn:Hf; run in Hr; try discriminate.
  injection Hr as <- <-. exists s1. auto.
Qed.

(** X11: a [realloc] that has to move the block returns another address,
    and the bytes of the old block, as many as its recorded size, are
    found at the new address. *)
Theorem realloc_copies_contents (dm : data_model) (s : state) (l : list Z)
  (a : Z) (h : header) (size r : Z) (s' : state) :
  wf dm s l -> a ∈ l -> hdrs s !! a = Some h -> h_size h < size ->
  sizeof_header dm + size < half_modulus dm ->
  realloc dm (a + sizeof_header dm) size s = Ok (r, s') ->
  r <> NULL ->
  r <> a + sizeof_header dm /\
  forall i, 0 <= i < h_size h ->
    bytes s' !! (r + i) = bytes s !! (a + sizeof_header dm + i).
Proof.
  intros Hwf Ha Hh Hlt Hsane Hr Hnn. pose proof (sizeof_header_pos dm) as Hhs.
  destruct (wf_block _ _ _ _ Hwf Ha) as (h' & Hh' & Ha0 & Ha1 & _ & Ha2 & Ha3).
  rewrite Hh in Hh'. injection Hh' as <-.
  destruct (realloc_grow_inv dm s l a h size r s' Hwf Ha Hh Hlt Hsane Hr Hnn)
    as (s1 & Hm & Hfree).
  destruct (malloc_sane_inv dm s l size r s1 Hwf ltac:(lia) Hsane Hm Hnn)
    as (l1 & hr & Hwf1 & _ & Hin1 & Hhr & _ & Hle & Hold & _ & Hbytes).
  destruct (wf_block _ _ _ _ Hwf1 Hin1) as (hr' & Hhr' & Hr0 & _ & _ & Hr2 & Hr3).
  rewrite Hhr in Hhr'. injection Hhr' as <-.
  split.
  - intros ->.
    replace (a + sizeof_header dm - sizeof_header dm) with a in Hold by lia.
    destruct (Hold Ha) as (h' & Hh' & Hle'). rewrite Hh in Hh'.
    injection Hh' as <-. lia.
  - intros i Hi. rewrite (free_bytes _ _ _ _ Hfree).
    rewrite memcpy_lookup by lia. rewrite wrap_small by lia.
    rewrite Hbytes. reflexivity.
Qed.


(** ** The listing *)

Lemma print_mem_list_from_chain m l : forall fuel a,
  chainb m a l = true -> (length l < fuel)%nat ->
  exists lines,
    print_mem_list_from fuel m a = Ok lines /\
    Forall2 (fun x line =>
               exists h, m !! x = Some h /\
                 line = Printed_block x (h_size h) (Z.b2z (h_is_free h))
                          (h_next h))
            l lines.
Proof.
  unfold chainb. induction l as [|x l IH]; intros fuel a Hc Hf.
  - simpl in Hc. destruct fuel as [|fuel]; [simpl in Hf; lia|].
    cbn [print_mem_list_from]. rewrite Hc. exists []. split; [reflexivity|].
    constructor.
  - apply pathb_cons in Hc as (-> & Hn & h & Hh & Hp).
    destruct fuel as [|fuel]; [simpl in Hf; lia|].
    destruct (IH fuel (h_next h) Hp) as (rest & Hrest & Hall);
      [simpl in Hf; lia|].
    cbn [print_mem_list_from]. apply Z.eqb_neq in Hn. rewrite Hn.
    rewrite (load_Some _ _ _ Hh). run. rewrite Hrest. run.
    eexists. split; [reflexivity|]. constructor; [|exact Hall]. eauto.
Qed.

(** X13: on a list that runs from [head] to [NULL], [print_mem_list]
    prints the two globals and then one line for every block of the
    list, in list order, with the address and the three fields of its
    header. *)
Theorem print_mem_list_lists_blocks (s : state) (l : list Z) :
  chainb (hdrs s) (head s) l = true ->
  exists lines,
    print_mem_list s = Ok (Printed_globals (head s) (tail s) :: lines) /\
    length lines = length l /\
    Forall2 (fun x line =>
               exists h, hdrs s !! x = Some h /\
                 line = Printed_block x (h_size h) (Z.b2z (h_is_free h))
                          (h_next h))
            l lines.
Proof.
  intros Hc.
  destruct (print_mem_list_from_chain (hdrs s) l (S (base.size (hdrs s)))
              (head s) Hc) as (lines & Hrun & Hall).
  { apply chainb_length in Hc. lia. }
  exists lines. unfold print_mem_list. rewrite Hrun. run.
  split; [reflexivity|]. split; [|exact Hall].
  symmetry. eapply Forall2_length. exact Hall.
Qed.

(** ** Blocks in use are left alone *)


(** X15: [free] of a block of the list changes no payload byte, and
    every other block of the list stays on the list, free or in use as it
    was. *)
Theorem free_spares_other_blocks (dm : data_model) (s : state) (l : list Z)
  (a : Z) (s' : state) :
  wf dm s l -> a ∈ l ->
  free dm (a + sizeof_header dm) s = Ok s' ->
  bytes s' = bytes s /\
  exists l',
    wf dm s' l' /\
    forall x, x ∈ l -> x <> a ->
      x ∈ l' /\ h_is_free <$> (hdrs s' !! x) = h_is_free <$> (hdrs s !! x).
Proof.
  intros Hwf Ha Hfree.
  destruct (free_effect dm s l a Hwf Ha) as (s0 & l' & Hf & Hwf' & Hb & _ & Hrest).
  rewrite Hfree in Hf. injection Hf as <-.
  split; [exact Hb|]. exists l'. split; [exact Hwf'|]. exact Hrest.
Qed.

(** ** The further theorems at work on the small heaps *)

Example two_blocks_reachable : reachable LP64 two_blocks.
Proof.
  apply (reach_malloc LP64 one_block 32 4160 two_blocks).
  - apply (reach_malloc LP64 fresh_heap 16 4120 one_block).
    + apply reach_initial; vm_compute; [split; [reflexivity|discriminate]|reflexivity].
    + lia.
    + vm_compute. reflexivity.
    + vm_compute. reflexivity.
  - lia.
  - vm_compute. reflexivity.
  - vm_compute. reflexivity.
Qed.

Example two_blocks_on_list_4120 : on_list LP64 two_blocks 4120.
Proof. exists [4096; 4136]. split; [vm_compute; reflexivity|]. left. Qed.

Example two_blocks_on_list_4160 : on_list LP64 two_blocks 4160.
Proof. exists [4096; 4136]. split; [vm_compute; reflexivity|]. right. left. Qed.

Lemma malloc_null_iff_witness :
  wf LP64 full_heap [4096] /\
  exists s', malloc LP64 100 full_heap = Ok (NULL, s') /\ brk s' = brk full_heap.
Proof.
  split; [vm_compute; reflexivity|].
  destruct (malloc_null_iff LP64 full_heap [4096] 100) as (r & s' & Hm & Hiff & Hsame).
  - vm_compute. reflexivity.
  - lia.
  - vm_compute. reflexivity.
  - assert (Hr : r = NULL).
    { apply Hiff. right. split; vm_compute; reflexivity. }
    subst r. exists s'. split; [exact Hm|]. apply Hsame. reflexivity.
Defined.

Lemma malloc_grows_heap_witness :
  wf LP64 two_blocks [4096; 4136] /\
  exists s',
    malloc LP64 100 two_blocks = Ok (4216, s') /\ brk s' = 4316 /\
    tail s' = 4192 /\ wf LP64 s' [4096; 4136; 4192].
Proof.
  split; [vm_compute; reflexivity|].
  destruct (malloc_grows_heap LP64 two_blocks [4096; 4136] 100)
    as (s' & Hm & Hbrk & _ & Htail & _ & _ & _ & _ & Hwf).
  - vm_compute. reflexivity.
  - lia.
  - vm_compute. reflexivity.
  - vm_compute. reflexivity.
  - vm_compute. discriminate.
  - exists s'. auto.
Defined.


Lemma malloc_total_size_wraps_witness :
  wf LP64 two_blocks [4096; 4136] /\
  malloc LP64 (2 ^ 64 - 8) two_blocks = Undefined.
Proof.
  split; [vm_compute; reflexivity|].
  apply (malloc_total_size_wraps LP64 two_blocks [4096; 4136] (2 ^ 64 - 8)).
  - vm_compute. reflexivity.
  - vm_compute. split; reflexivity.
  - vm_compute. discriminate.
  - vm_compute. discriminate.
Defined.

Lemma reachable_blocks_disjoint_witness :
  reachable LP64 two_blocks /\
  exists hp hq,
    hdrs two_blocks !! (4120 - sizeof_header LP64) = Some hp /\
    hdrs two_blocks !! (4160 - sizeof_header LP64) = Some hq /\
    (4120 + h_size hp <= 4160 - sizeof_header LP64 \/
     4160 + h_size hq <= 4120 - sizeof_header LP64).
Proof.
  split; [exact two_blocks_reachable|].
  destruct (reachable_blocks_disjoint LP64 two_blocks 4120 4160)
    as (hp & hq & Hp & Hq & _ & _ & _ & _ & Hapart).
  - exact two_blocks_reachable.
  - exact two_blocks_on_list_4120.
  - exact two_blocks_on_list_4160.
  - lia.
  - exists hp, hq. auto.
Defined.

Lemma reachable_break_at_tail_end_witness :
  reachable LP64 two_blocks /\
  exists ht,
    hdrs two_blocks !! tail two_blocks = Some ht /\ h_next ht = NULL /\
    tail two_blocks + sizeof_header LP64 + h_size ht = brk two_blocks.
Proof.
  split; [exact two_blocks_reachable|].
  apply (reachable_break_at_tail_end LP64 two_blocks two_blocks_reachable).
  vm_compute. discriminate.
Defined.

Lemma reachable_calls_return_witness :
  reachable LP64 two_blocks /\
  (exists r s', malloc LP64 100 two_blocks = Ok (r, s')) /\
  (exists s', free LP64 4120 two_blocks = Ok s').
Proof.
  split; [exact two_blocks_reachable|].
  destruct (reachable_calls_return LP64 two_blocks two_blocks_reachable)
    as (Hmalloc & Hfree & _ & _).
  split.
  - apply Hmalloc; [lia|vm_compute; reflexivity].
  - apply Hfree. right. exact two_blocks_on_list_4120.
Defined.

Lemma free_then_malloc_returns_block_witness :
  wf LP64 two_blocks ([] ++ 4096 :: [4136]) /\
  exists s1 s2,
    free LP64 4120 two_blocks = Ok s1 /\
    malloc LP64 10 s1 = Ok (4120, s2) /\
    hdrs s2 = hdrs two_blocks /\ brk s2 = brk two_blocks.
Proof.
  split; [vm_compute; reflexivity|].
  destruct (free_then_malloc_returns_block LP64 two_blocks [] [4136] 4096
              {| h_size := 16; h_is_free := false; h_next := 4136 |} 10)
    as (s1 & s2 & Hf & Hm & Hh & _ & _ & _ & Hb).
  - vm_compute. reflexivity.
  - discriminate.
  - vm_compute. reflexivity.
  - reflexivity.
  - simpl. lia.
  - intros b Hb. inversion Hb.
  - exists s1, s2. auto.
Defined.

Lemma malloc_then_free_restores_witness :
  wf LP64 two_blocks [4096; 4136] /\
  exists s1 s2,
    malloc LP64 100 two_blocks = Ok (4216, s1) /\
    free LP64 4216 s1 = Ok s2 /\
    brk s1 = 4316 /\ brk s2 = 4192 /\ wf LP64 s2 [4096; 4136].
Proof.
  split; [vm_compute; reflexivity|].
  destruct (malloc_then_free_restores LP64 two_blocks [4096; 4136] 100)
    as (s1 & s2 & Hm & Hf & Hb1 & Hb2 & _ & _ & _ & _ & Hwf).
  - vm_compute. reflexivity.
  - lia.
  - vm_compute. reflexivity.
  - vm_compute. reflexivity.
  - vm_compute. discriminate.
  - exists s1, s2. auto.
Defined.

Lemma calloc_is_malloc_then_memset_witness :
  exists s1 s',
    malloc LP64 (2 * 4) first_freed = Ok (4120, s1) /\
    calloc LP64 2 4 first_freed = Ok (4120, s') /\
    hdrs s' = hdrs s1 /\ s' = memset LP64 4120 0 (2 * 4) s1.
Proof.
  destruct (malloc LP64 (2 * 4) first_freed) as [[r s1]| |] eqn:E;
    try (vm_compute in E; discriminate).
  assert (r = 4120) as -> by (vm_compute in E; injection E as <- _; reflexivity).
  destruct (calloc_is_malloc_then_memset LP64 first_freed 2 4 4120 s1)
    as (s' & Hc & Hh & _ & _ & _ & _ & Hset).
  - lia.
  - lia.
  - vm_compute. reflexivity.
  - exact E.
  - exists s1, s'. split; [reflexivity|]. split; [exact Hc|].
    split; [exact Hh|]. apply Hset. unfold NULL. lia.
Defined.

Lemma realloc_copies_contents_witness :
  wf LP64 two_blocks_written [4096; 4136] /\
  exists s',
    realloc LP64 4120 100 two_blocks_written = Ok (4216, s') /\
    bytes s' !! (4216 + 8) = Some 7.
Proof.
  split; [vm_compute; reflexivity|].
  destruct (realloc LP64 4120 100 two_blocks_written) as [[r s']| |] eqn:E;
    try (vm_compute in E; discriminate).
  assert (r = 4216) as -> by (vm_compute in E; injection E as <- _; reflexivity).
  destruct (realloc_copies_contents LP64 two_blocks_written [4096; 4136] 4096
              {| h_size := 16; h_is_free := false; h_next := 4136 |}
              100 4216 s') as [_ Hcopy].
  - vm_compute. reflexivity.
  - left.
  - vm_compute. reflexivity.
  - simpl. lia.
  - vm_compute. reflexivity.
  - exact E.
  - unfold NULL. lia.
  - exists s'. split; [reflexivity|].
    rewrite (Hcopy 8) by (simpl; lia). vm_compute. reflexivity.
Defined.


Lemma print_mem_list_lists_blocks_witness :
  chainb (hdrs two_blocks) (head two_blocks) [4096; 4136] = true /\
  exists lines,
    print_mem_list two_blocks = Ok (Printed_globals 4096 4136 :: lines) /\
    length lines = 2%nat.
Proof.
  split; [vm_compute; reflexivity|].
  destruct (print_mem_list_lists_blocks two_blocks [4096; 4136])
    as (lines & Hp & Hlen & _).
  - vm_compute. reflexivity.
  - exists lines. auto.
Defined.


Lemma free_spares_other_blocks_witness :
  wf LP64 two_blocks_written [4096; 4136] /\
  exists s',
    free LP64 4120 two_blocks_written = Ok s' /\
    bytes s' = bytes two_blocks_written /\
    h_is_free <$> (hdrs s' !! 4136) = Some false.
Proof.
  split; [vm_compute; reflexivity|].
  destruct (free LP64 4120 two_blocks_written) as [s'| |] eqn:E;
    try (vm_compute in E; discriminate).
  destruct (free_spares_other_blocks LP64 two_blocks_written [4096; 4136] 4096 s')
    as (Hb & l' & _ & Hrest).
  - vm_compute. reflexivity.
  - left.
  - exact E.
  - exists s'. split; [reflexivity|]. split; [exact Hb|].
    destruct (Hrest 4136) as [_ Hsame]; [right; left|lia|].
    rewrite Hsame. vm_compute. reflexivity.
Defined.
